(** * The gradio website layout: tab selection and the breakpoint store

    A shallow embedding of the two stateful pieces of
    [_layout.svelte.js] (the server-rendered layout and landing page of
    the gradio website):

    - [Demos]: the tabbed demo showcase, a list of tabs and the index
      [current_selection] of the visible one;
    - [MediaQuery]: the store built by [media_query], which mirrors the
      match state of five min-width media queries and notifies its
      subscribers.

    JavaScript objects used as dictionaries are finite maps, arrays are
    lists, and the mutable objects shared between the store and the
    browser (the [MediaQueryList] objects) live in an explicit heap. *)

From Stdlib Require Import ZArith Lia.
From stdpp Require Import base option strings list gmap.

Open Scope Z_scope.

(* ================================================================== *)
(** ** The tab selection model of [Demos] *)
(* ================================================================== *)

Module Demos.

(** The three highlighted code snippets [sketch], [q_a] and [img] are
    long HTML constants; a tab refers to one of them, or holds
    [code: false]. *)
Inductive Snippet := sketch | q_a | img.

Record Tab := {
  title : string;
  code : option Snippet;  (* [false] is [None] *)
  demo : string
}.

(** [let tabs = [ ... ]] *)
Definition tabs : list Tab := [
  {| title := "Sketch Recognition";
     code := Some sketch;
     demo := "gradio/pictionary" |};
  {| title := "Question Answering";
     code := Some q_a;
     demo := "gradio/question-answering" |};
  {| title := "Image Segmentation";
     code := Some img;
     demo := "gradio/Echocardiogram-Segmentation" |};
  {| title := "Time Series Forecasting";
     code := None;
     demo := "gradio/timeseries-forecasting-with-prophet" |};
  {| title := "XGBoost with Explainability";
     code := None;
     demo := "gradio/xgboost-income-prediction-with-explainability" |}
].

(** The state of one [Demos] component: the tab list and
    [current_selection]. *)
Record Model := {
  entries : list Tab;
  current_selection : Z
}.

(** [let current_selection = 0;] over any list of entries. *)
Definition Initialize (ts : list Tab) : Model :=
  {| entries := ts; current_selection := 0 |}.

(** The component as the source builds it. *)
Definition init : Model := Initialize tabs.

(** [i !== current_selection], the test that adds the class
    [hidden] to the panel of tab [i]. *)
Definition is_hidden (m : Model) (i : Z) : bool :=
  negb (i =? current_selection m).

(** [i !== current_selection ? "hidden" : ""] *)
Definition hidden_class (m : Model) (i : Z) : string :=
  if is_hidden m i then "hidden" else "".

Definition ActiveIndex (m : Model) : Z := current_selection m.

Definition IsActive (m : Model) (i : Z) : bool := negb (is_hidden m i).

(** The indices [each(tabs, (_, i) => ...)] runs over. *)
Definition indices (m : Model) : list Z :=
  seqZ 0 (Z.of_nat (length (entries m))).

(** The panels rendered without the class [hidden]. *)
Definition visible (m : Model) : list Z :=
  filter (λ i, IsActive m i = true) (indices m).

Inductive Status := Selected | OutOfRange.

(** Modelled from the spec: the click handler that assigns
    [current_selection] is not part of the server-rendered output, so
    [Select] follows the contract of the specification: it fails with
    [OutOfRange] when the index is not within [0, length) and mutates
    nothing; otherwise it updates the active index. *)
Definition Select (index : Z) (m : Model) : Status * Model :=
  if decide (0 ≤ index < Z.of_nat (length (entries m)))
  then (Selected, {| entries := entries m; current_selection := index |})
  else (OutOfRange, m).

(** The states a component goes through: any sequence of selection
    requests, accepted or rejected, after initialization. *)
Inductive Reachable (ts : list Tab) : Model → Prop :=
| reach_init : Reachable ts (Initialize ts)
| reach_select m index :
    Reachable ts m → Reachable ts (Select index m).2.

End Demos.

(* ================================================================== *)
(** ** The breakpoint store of [media_query] *)
(* ================================================================== *)

Module MediaQuery.

(** [const sizes = { sm: ..., md: ..., lg: ..., xl: ..., "2xl": ... }],
    in the order in which [for (const key in sizes)] enumerates it. *)
Definition sizes : list (string * string) := [
  ("sm", "(min-width: 640px)");
  ("md", "(min-width: 768px)");
  ("lg", "(min-width: 1024px)");
  ("xl", "(min-width: 1280px)");
  ("2xl", "(min-width: 1536px)")
].

(** [const _default = { sm: false, md: false, lg: false, xl: false,
    "2xl": false }] *)
Definition _default : gmap string bool :=
  list_to_map [
    ("sm", false); ("md", false); ("lg", false); ("xl", false);
    ("2xl", false)
  ].

(** The names the store is built for. *)
Definition names : list string := sizes.*1.

(** *** JavaScript objects enumerated with [for ... in]

    [listeners] is filled by assignment and enumerated in insertion
    order, so it is an association list: [obj_get] is [o[key]]
    ([None] for [undefined]) and [obj_set] is [o[key] = v]. *)

Fixpoint obj_get {A} (key : string) (o : list (string * A)) : option A :=
  match o with
  | [] => None
  | (k, v) :: o' => if decide (k = key) then Some v else obj_get key o'
  end.

Fixpoint obj_set {A} (key : string) (v : A) (o : list (string * A))
  : list (string * A) :=
  match o with
  | [] => [(key, v)]
  | (k, x) :: o' =>
      if decide (k = key) then (k, v) :: o' else (k, x) :: obj_set key v o'
  end.

(** *** The browser side: media query lists and their listeners *)

(** The closure [onChange(key)]; the store makes one per key. *)
Inductive Listener := OnChange (key : string).

#[global] Instance Listener_eq_dec : EqDecision Listener.
Proof. solve_decision. Defined.

(** A [MediaQueryList] object: its query, its live [matches] flag and
    the listeners of its ["change"] event. *)
Record MediaQueryList := {
  media : string;
  matches : bool;
  change : list Listener
}.

(** [window], when there is one: what [matchMedia(q).matches] is for
    the viewport at the time of the call. *)
Definition Window := string → bool.

(** The callbacks registered with [onDestroy]. *)
Inductive Hook := RemoveListeners.

(** Exceptions. *)
Inductive Error := TypeError.

Inductive Result (A : Type) :=
| Ok (a : A)
| Throw (e : Error).
Arguments Ok {A} a.
Arguments Throw {A} e.

#[global] Instance Result_ret : MRet Result := λ A a, Ok a.

#[global] Instance Result_bind : MBind Result := λ A B k r,
  match r with
  | Ok a => k a
  | Throw e => Throw e
  end.

(** The world of one store:
    - [heap]: the [MediaQueryList] objects handed out by
      [window.matchMedia], addressed by position;
    - [value], [subscribers]: the state of [writable(_default)];
    - [listeners]: the table [key -> [mql, listener]];
    - [on_destroy]: the callbacks registered with [onDestroy];
    - [calls]: the invocations of subscriber callbacks so far, oldest
      first, each with the snapshot it was passed;
    - [fresh]: the next subscription identity. *)
Record World := {
  heap : list MediaQueryList;
  value : gmap string bool;
  subscribers : list nat;
  listeners : list (string * (nat * Listener));
  on_destroy : list Hook;
  calls : list (nat * gmap string bool);
  fresh : nat
}.

Definition set_heap (h : list MediaQueryList) (w : World) : World :=
  {| heap := h; value := value w; subscribers := subscribers w;
     listeners := listeners w; on_destroy := on_destroy w;
     calls := calls w; fresh := fresh w |}.

Definition set_listeners (t : list (string * (nat * Listener))) (w : World)
  : World :=
  {| heap := heap w; value := value w; subscribers := subscribers w;
     listeners := t; on_destroy := on_destroy w;
     calls := calls w; fresh := fresh w |}.

(** [window.matchMedia(query)]: a new object, without listeners. *)
Definition matchMedia (window : Window) (query : string) (w : World)
  : nat * World :=
  (length (heap w),
   set_heap (heap w ++
             [{| media := query; matches := window query; change := [] |}])
            w).

(** [mql.addEventListener("change", listener)]: a listener already
    registered is not registered again. *)
Definition add_listener (l : Listener) (q : MediaQueryList)
  : MediaQueryList :=
  {| media := media q; matches := matches q;
     change := if decide (l ∈ change q) then change q
               else change q ++ [l] |}.

Definition addEventListener (mql : nat) (l : Listener) (w : World) : World :=
  set_heap (alter (add_listener l) mql (heap w)) w.

(** [mql.removeEventListener("change", listener)]: nothing happens
    when the listener is not registered. *)
Definition remove_listener (l : Listener) (q : MediaQueryList)
  : MediaQueryList :=
  {| media := media q; matches := matches q;
     change := filter (λ l', l' ≠ l) (change q) |}.

Definition removeEventListener (mql : nat) (l : Listener) (w : World)
  : World :=
  set_heap (alter (remove_listener l) mql (heap w)) w.

(** *** The store returned by [writable]

    Modelled from the spec: [writable] comes from a chunk that is not
    among the sources. It follows the store contract the specification
    and the callers rely on: [subscribe] registers the callback, calls
    it at once with the current value and returns the handle that
    removes it; [update] replaces the value (a fresh object, so always
    taken as changed) and calls every registered callback with it. *)

Definition writable (init : gmap string bool) : World :=
  {| heap := []; value := init; subscribers := []; listeners := [];
     on_destroy := []; calls := []; fresh := 0 |}.

(** [subscribe2(run)], to which the helper [subscribe(store, run)]
    forwards; returns the identity of the subscription, which stands
    for the handle. *)
Definition subscribe (w : World) : nat * World :=
  let id := fresh w in
  (id,
   {| heap := heap w; value := value w;
      subscribers := subscribers w ++ [id];
      listeners := listeners w; on_destroy := on_destroy w;
      calls := calls w ++ [(id, value w)];
      fresh := S id |}).

(** Invoking the handle of subscription [id]. *)
Definition unsubscribe (id : nat) (w : World) : World :=
  {| heap := heap w; value := value w;
     subscribers := filter (λ i, i ≠ id) (subscribers w);
     listeners := listeners w; on_destroy := on_destroy w;
     calls := calls w; fresh := fresh w |}.

(** [update(fn)] *)
Definition update (fn : gmap string bool → gmap string bool) (w : World)
  : World :=
  let v := fn (value w) in
  {| heap := heap w; value := v; subscribers := subscribers w;
     listeners := listeners w; on_destroy := on_destroy w;
     calls := calls w ++ ((λ id, (id, v)) <$> subscribers w);
     fresh := fresh w |}.

(** *** [media_query] *)

(** The listener body:
    [update((s) => ({ ...s, [key]: !!listeners[key][0].matches }))].
    Reading [listeners[key][0]] throws when the key has no entry. *)
Definition onChange (key : string) (w : World) : Result World :=
  match obj_get key (listeners w) with
  | None => Throw TypeError
  | Some (mql, _) =>
      match heap w !! mql with
      | None => Throw TypeError
      | Some q => Ok (update (λ s, <[key := matches q]> s) w)
      end
  end.

(** One round of [for (const key in sizes) { ... }]. *)
Definition register (window : Window) (w : World) (entry : string * string)
  : World :=
  let '(key, query) := entry in
  let '(mql, w) := matchMedia window query w in
  let listener := OnChange key in
  let w := addEventListener mql listener w in
  set_listeners (obj_set key (mql, listener) (listeners w)) w.

(** [onDestroy(callback)].

    Modelled from the spec: [onDestroy] comes from a chunk that is not
    among the sources. The callback is kept for the destruction of the
    view, the one moment at which the specification has the watchers
    released. *)
Definition onDestroy (h : Hook) (w : World) : World :=
  {| heap := heap w; value := value w; subscribers := subscribers w;
     listeners := listeners w; on_destroy := on_destroy w ++ [h];
     calls := calls w; fresh := fresh w |}.

(** [media_query()], in an environment with or without [window]. *)
Definition media_query (window : option Window) : World :=
  let w := writable _default in
  match window with
  | Some win => onDestroy RemoveListeners (foldl (register win) w sizes)
  | None => w
  end.

(** The callback given to [onDestroy]:
    [for (const key in listeners) { const [_mql, _listener] =
    listeners[key]; _mql.removeEventListener("change", _listener); }] *)
Definition remove_listeners (w : World) : World :=
  foldl (λ w entry, removeEventListener entry.2.1 entry.2.2 w)
        w (listeners w).

Definition run_hook (w : World) (h : Hook) : World :=
  match h with
  | RemoveListeners => remove_listeners w
  end.

(** Modelled from the spec: destroying the view, which is not among
    the sources either, runs every callback registered with
    [onDestroy]. Calling [Teardown] again runs them again. *)
Definition Teardown (w : World) : World :=
  foldl run_hook w (on_destroy w).

(** *** Events *)

Definition run_listener (l : Listener) (w : World) : Result World :=
  match l with
  | OnChange key => onChange key w
  end.

(** The listeners of an event run one after the other. *)
Fixpoint dispatch (ls : list Listener) (w : World) : Result World :=
  match ls with
  | [] => Ok w
  | l :: ls' => w' ← run_listener l w; dispatch ls' w'
  end.

Definition set_matches (b : bool) (q : MediaQueryList) : MediaQueryList :=
  {| media := media q; matches := b; change := change q |}.

(** The viewport changes so that the query of object [mql] now
    evaluates to [b]: the browser updates the object and fires its
    ["change"] event. There is nothing to fire when no such object
    exists. *)
Definition viewport_change (mql : nat) (b : bool) (w : World)
  : Result World :=
  match heap w !! mql with
  | None => Ok w
  | Some q =>
      dispatch (change q) (set_heap (<[mql := set_matches b q]> (heap w)) w)
  end.

(** What can happen to a store once it is built. *)
Inductive Op :=
| Subscribe
| Unsubscribe (id : nat)
| Change (mql : nat) (b : bool)
| Destroy.

Definition exec (o : Op) (w : World) : Result World :=
  match o with
  | Subscribe => Ok (subscribe w).2
  | Unsubscribe id => Ok (unsubscribe id w)
  | Change mql b => viewport_change mql b w
  | Destroy => Ok (Teardown w)
  end.

Fixpoint run (ops : list Op) (w : World) : Result World :=
  match ops with
  | [] => Ok w
  | o :: ops' => w' ← exec o w; run ops' w'
  end.

(** *** Observations *)

(** [CurrentState()] *)
Definition CurrentState (w : World) : gmap string bool := value w.

(** The snapshots subscription [id] was called with, oldest first. *)
Definition received (id : nat) (cs : list (nat * gmap string bool))
  : list (gmap string bool) :=
  (filter (λ c, c.1 = id) cs).*2.

Definition call_count (id : nat) (w : World) : nat :=
  length (received id (calls w)).

(** The object registered for a breakpoint name. *)
Definition mql_of (key : string) (w : World) : option nat :=
  fst <$> obj_get key (listeners w).

Definition is_change (o : Op) : bool :=
  match o with
  | Change _ _ => true
  | _ => false
  end.

Definition is_destroy (o : Op) : bool :=
  match o with
  | Destroy => true
  | _ => false
  end.

(** *** [Header]

    [$$unsubscribe_store = subscribe(store, (value) => $store = value);
     console.log($store == null ? void 0 : $store.lg);
     $$unsubscribe_store();]

    [$store] is the last snapshot the callback was given; the second
    component is what is logged, [None] standing for [undefined]. *)
Definition Header (w : World) : World * option bool :=
  let '(id, w1) := subscribe w in
  let store_value := last (received id (calls w1)) in
  let logged := s ← store_value; s !! "lg" in
  (unsubscribe id w1, logged).

(** [Layout]: [store = media_query();], then [Header] is rendered. *)
Definition Layout (window : option Window) : World * option bool :=
  Header (media_query window).

(** *** Well-formed worlds

    What holds of every world a store goes through: the state has the
    keys of [sizes]; a listener registered on an object is the one the
    table holds for its key, next to that very object; the destroy
    callback is registered as soon as there are objects; subscription
    identities are not reused. *)

Record wf (w : World) : Prop := {
  wf_dom : dom (value w) = list_to_set names;
  wf_handler r q key :
    heap w !! r = Some q → OnChange key ∈ change q →
    obj_get key (listeners w) = Some (r, OnChange key) ∧ key ∈ names;
  wf_hooks :
    on_destroy w = [RemoveListeners] ∨ (on_destroy w = [] ∧ heap w = []);
  wf_subscribers id : id ∈ subscribers w → (id < fresh w)%nat;
  wf_calls c : c ∈ calls w → (c.1 < fresh w)%nat
}.

(** The listeners are in place: every name has its object in the
    table, and its listener is the one registered there. *)
Definition live (w : World) : Prop :=
  ∀ key, key ∈ names →
    ∃ r q, obj_get key (listeners w) = Some (r, OnChange key) ∧
           heap w !! r = Some q ∧ change q = [OnChange key].

(** No object has a listener. *)
Definition quiet (w : World) : Prop :=
  Forall (λ q, change q = []) (heap w).

(** *** What an event and the destroy callback amount to *)

Definition key_of (l : Listener) : string :=
  match l with
  | OnChange key => key
  end.

(** The world after the listeners [ls] of an object whose flag is [b]
    have run. *)
Definition fire (b : bool) (ls : list Listener) (w : World) : World :=
  foldl (λ w l, update (λ s, <[key_of l := b]> s) w) w ls.

(** The heap after the entries [es] of the table were handed to
    [removeEventListener]. *)
Definition release (h : list MediaQueryList)
    (es : list (string * (nat * Listener))) : list MediaQueryList :=
  foldl (λ h e, alter (remove_listener e.2.2) e.2.1 h) h es.

(** *** Further notions about worlds *)

(** The object that one round of the loop of [media_query] leaves in
    the heap for an entry of [sizes]. *)
Definition watcher (window : Window) (entry : string * string)
  : MediaQueryList :=
  {| media := entry.2; matches := window entry.2;
     change := [OnChange entry.1] |}.

(** An object keeps its query, and its listeners or none of them. *)
Definition kept (q q0 : MediaQueryList) : Prop :=
  media q = media q0 ∧ (change q = change q0 ∨ change q = []).

(** [w] has the table, the destroy callbacks and the objects of [w0],
    no listener added. *)
Definition frozen (w0 w : World) : Prop :=
  listeners w = listeners w0 ∧
  on_destroy w = on_destroy w0 ∧
  Forall2 kept (heap w) (heap w0).


(** The state holds under [key] the flag of the object of [key]. *)
Definition tracks (key : string) (w : World) : Prop :=
  ∀ r q, mql_of key w = Some r → heap w !! r = Some q →
         value w !! key = Some (matches q).

(** Two objects that differ at most in their [matches] flag. *)
Definition same_shape (q1 q2 : MediaQueryList) : Prop :=
  media q1 = media q2 ∧ change q1 = change q2.

(** Two worlds that differ at most in the [matches] flags of their
    objects. *)
Definition alike (w1 w2 : World) : Prop :=
  Forall2 same_shape (heap w1) (heap w2) ∧
  value w1 = value w2 ∧
  subscribers w1 = subscribers w2 ∧
  listeners w1 = listeners w2 ∧
  on_destroy w1 = on_destroy w2 ∧
  calls w1 = calls w2 ∧
  fresh w1 = fresh w2.

(** *** The hosts [media_query] can be called on

    [media_query] asks one thing of its host before it calls
    [window.matchMedia]: [typeof window !== "undefined"]. A host can
    have no [window] (rendering on the server), a [window] that has no
    [matchMedia], or a [window] with it. *)
Inductive Host :=
| NoWindow
| WindowOnly
| Browser (win : Window).

(** [typeof window], and [window.matchMedia] when there is a
    [window]: [None] is [undefined]. *)
Definition window_of (h : Host) : option (option Window) :=
  match h with
  | NoWindow => None
  | WindowOnly => Some None
  | Browser win => Some (Some win)
  end.

(** Whether the host has a facility to watch the viewport. *)
Definition can_watch (h : Host) : bool :=
  match h with
  | Browser _ => true
  | _ => false
  end.

(** One round of the loop, [window.matchMedia] looked up first:
    calling it when it is [undefined] throws a [TypeError]. *)
Definition register_on (matchMedia_of_window : option Window) (w : World)
    (entry : string * string) : Result World :=
  match matchMedia_of_window with
  | None => Throw TypeError
  | Some win => Ok (register win w entry)
  end.

(** [for (const key in sizes) { ... }], left at the first round that
    throws. *)
Fixpoint for_in (body : World → string * string → Result World)
    (w : World) (entries : list (string * string)) : Result World :=
  match entries with
  | [] => Ok w
  | e :: es => w' ← body w e; for_in body w' es
  end.

(** [media_query()] on a host. *)
Definition media_query_on (h : Host) : Result World :=
  let w := writable _default in
  match window_of h with
  | Some mm =>
      w' ← for_in (register_on mm) w sizes;
      Ok (onDestroy RemoveListeners w')
  | None => Ok w
  end.

(** [Layout] on a host: [store = media_query();], then [Header]. *)
Definition Layout_on (h : Host) : Result (World * option bool) :=
  w ← media_query_on h; Ok (Header w).

End MediaQuery.

(* ================================================================== *)
(** ** Properties of the tab selection model *)
(* ================================================================== *)

Module TabSelection.
Import Demos.

Lemma IsActive_spec (m : Model) (j : Z) :
  IsActive m j = true ↔ j = current_selection m.
Proof.
  unfold IsActive, is_hidden. rewrite negb_involutive. apply Z.eqb_eq.
Qed.

(** No index is selected in a range that lies above the selection. *)
Lemma filter_active_above (m : Model) (a : Z) (k : nat) :
  current_selection m < a →
  filter (λ i, IsActive m i = true) (seqZ a (Z.of_nat k)) = [].
Proof.
  revert a. induction k as [|k IH]; intros a Ha; [done|].
  rewrite seqZ_cons by lia.
  replace (Z.pred (Z.of_nat (S k))) with (Z.of_nat k) by lia.
  rewrite filter_cons_False by (rewrite IsActive_spec; lia).
  apply IH. lia.
Qed.

(** Exactly the selection is picked out of a range that contains it. *)
Lemma filter_active_within (m : Model) (a : Z) (k : nat) :
  a ≤ current_selection m < a + Z.of_nat k →
  filter (λ i, IsActive m i = true) (seqZ a (Z.of_nat k))
  = [current_selection m].
Proof.
  revert a. induction k as [|k IH]; intros a Ha; [lia|].
  rewrite seqZ_cons by lia.
  replace (Z.pred (Z.of_nat (S k))) with (Z.of_nat k) by lia.
  destruct (decide (a = current_selection m)) as [->|Hne].
  - rewrite filter_cons_True by (by rewrite IsActive_spec).
    f_equal. apply filter_active_above. lia.
  - rewrite filter_cons_False by (by rewrite IsActive_spec).
    apply IH. lia.
Qed.

Lemma visible_singleton (m : Model) :
  0 ≤ current_selection m < Z.of_nat (length (entries m)) →
  visible m = [current_selection m].
Proof. intros H. unfold visible, indices. apply filter_active_within. lia. Qed.

(** The selection of a component with at least one tab is always a
    valid index, and the tabs never change. *)
Lemma Reachable_valid (ts : list Tab) (m : Model) :
  ts ≠ [] →
  Reachable ts m →
  entries m = ts ∧ 0 ≤ current_selection m < Z.of_nat (length ts).
Proof.
  intros Hts Hm. induction Hm as [|m index Hm [IHe IHc]].
  - split; [done|]. simpl. destruct ts; [done|]. simpl; lia.
  - unfold Select. case_decide; simpl; [|done].
    split; [done|]. by rewrite <- IHe.
Qed.

(** The example of the specification: three tabs, select the last
    one, then ask for a tab that does not exist. *)
Example three_tabs :
  let abc := Initialize [
    {| title := "A"; code := None; demo := "a" |};
    {| title := "B"; code := None; demo := "b" |};
    {| title := "C"; code := None; demo := "c" |} ] in
  let m := (Select 2 abc).2 in
  ActiveIndex abc = 0 ∧
  ActiveIndex m = 2 ∧ IsActive m 0 = false ∧ IsActive m 2 = true ∧
  visible m = [2] ∧
  Select 5 m = (OutOfRange, m).
Proof. by vm_compute. Qed.

(** The showcase as it is rendered on the server: only the first panel
    is without the class [hidden]. *)
Example rendered_panels :
  hidden_class init <$> indices init
  = [""; "hidden"; "hidden"; "hidden"; "hidden"].
Proof. reflexivity. Qed.

(** C1. For every tab collection and every valid index [i], [Select i]
    succeeds, after which [ActiveIndex] is [i] and [IsActive j] holds
    exactly for [j = i]; a component starts with active index 0. *)
Theorem select_then_active (m : Model) (i : Z) :
  0 ≤ i < Z.of_nat (length (entries m)) →
  ActiveIndex (Initialize (entries m)) = 0 ∧
  (Select i m).1 = Selected ∧
  ActiveIndex (Select i m).2 = i ∧
  ∀ j, IsActive (Select i m).2 j = true ↔ j = i.
Proof.
  intros Hi. split; [done|].
  unfold Select. rewrite decide_True by done. simpl.
  split; [done|]. split; [done|].
  intros j. by rewrite IsActive_spec.
Qed.

Lemma select_then_active_witness :
  0 ≤ 2 < Z.of_nat (length (entries init)) ∧
  ActiveIndex init = 0 ∧
  (Select 2 init).1 = Selected ∧
  ActiveIndex (Select 2 init).2 = 2 ∧
  ∀ j, IsActive (Select 2 init).2 j = true ↔ j = 2.
Proof.
  split; [simpl; lia|].
  apply (select_then_active init 2). simpl; lia.
Defined.

(** C2. For an index below 0 or not below the length, [Select] fails
    with [OutOfRange] and returns the model as it was, so the active
    index is the one from before. *)
Theorem select_out_of_range (m : Model) (index : Z) :
  index < 0 ∨ Z.of_nat (length (entries m)) ≤ index →
  (Select index m).1 = OutOfRange ∧
  (Select index m).2 = m ∧
  ActiveIndex (Select index m).2 = ActiveIndex m.
Proof.
  intros Hout. unfold Select.
  rewrite decide_False by lia. done.
Qed.

Lemma select_out_of_range_witness :
  (5 < 0 ∨ Z.of_nat (length (entries (Select 2 init).2)) ≤ 5) ∧
  (Select 5 (Select 2 init).2).1 = OutOfRange ∧
  (Select 5 (Select 2 init).2).2 = (Select 2 init).2 ∧
  ActiveIndex (Select 5 (Select 2 init).2).2 = 2.
Proof.
  split; [right; simpl; lia|].
  apply (select_out_of_range (Select 2 init).2 5). right; simpl; lia.
Defined.

(** C9. In every state the showcase reaches through selection
    requests, exactly one panel is visible: the visible indices are the
    singleton of the active index, which is a valid index into the
    tabs. *)
Theorem exactly_one_selected (m : Model) :
  Reachable tabs m →
  visible m = [ActiveIndex m] ∧
  0 ≤ ActiveIndex m < Z.of_nat (length (entries m)) ∧
  ∀ j, IsActive m j = true ↔ j = ActiveIndex m.
Proof.
  intros Hm.
  destruct (Reachable_valid tabs m) as [He Hc]; [done|done|].
  rewrite He. split; [|split; [done|]].
  - apply visible_singleton. by rewrite He.
  - intros j. apply IsActive_spec.
Qed.

Lemma exactly_one_selected_witness :
  Reachable tabs (Select 3 (Select 7 init).2).2 ∧
  visible (Select 3 (Select 7 init).2).2 = [3] ∧
  0 ≤ 3 < 5 ∧
  ∀ j, IsActive (Select 3 (Select 7 init).2).2 j = true ↔ j = 3.
Proof.
  split; [repeat constructor|].
  apply (exactly_one_selected (Select 3 (Select 7 init).2).2).
  repeat constructor.
Defined.

(** *** Beyond the claims: any value of [current_selection] *)

(** No index is selected in a range that does not contain the
    selection. *)
Lemma filter_active_outside (m : Model) (a : Z) (k : nat) :
  ¬ (a ≤ current_selection m < a + Z.of_nat k) →
  filter (λ i, IsActive m i = true) (seqZ a (Z.of_nat k)) = [].
Proof.
  revert a. induction k as [|k IH]; intros a Ha; [done|].
  rewrite seqZ_cons by lia.
  replace (Z.pred (Z.of_nat (S k))) with (Z.of_nat k) by lia.
  rewrite filter_cons_False by (rewrite IsActive_spec; lia).
  apply IH. lia.
Qed.

(** X1. Whatever [current_selection] holds, the test
    [i !== current_selection] leaves at most one panel without the
    class [hidden]: the one at the selection when this is an index of
    a tab, and none at all when it is not. *)
Theorem visible_at_most_one (m : Model) :
  visible m
  = (if decide (0 ≤ current_selection m < Z.of_nat (length (entries m)))
     then [current_selection m] else []) ∧
  (length (visible m) ≤ 1)%nat.
Proof.
  assert (Hv : visible m
    = if decide (0 ≤ current_selection m < Z.of_nat (length (entries m)))
      then [current_selection m] else []).
  { case_decide as Hc.
    - by apply visible_singleton.
    - unfold visible, indices. apply filter_active_outside. lia. }
  split; [done|].
  rewrite Hv. case_decide; simpl; lia.
Qed.

End TabSelection.

(* ================================================================== *)
(** ** Properties of the breakpoint store *)
(* ================================================================== *)

Module BreakpointStore.
Import MediaQuery.

Local Open Scope nat_scope.

(** *** Objects as association lists *)

Lemma obj_get_elem {A} (key : string) (v : A) (o : list (string * A)) :
  obj_get key o = Some v → (key, v) ∈ o.
Proof.
  induction o as [|[k x] o IH]; simpl; [done|].
  case_decide as Hk.
  - intros [= ->]. subst k. apply list_elem_of_here.
  - intros H. apply list_elem_of_further. auto.
Qed.

(** Writing back the heap a world already has changes nothing. *)
Lemma set_heap_same w : set_heap (heap w) w = w.
Proof. by destruct w. Qed.

(** *** The calls a subscription received *)

Lemma received_app id (cs ds : list (nat * gmap string bool)) :
  received id (cs ++ ds) = received id cs ++ received id ds.
Proof. unfold received. by rewrite filter_app, fmap_app. Qed.

Lemma received_none id (cs : list (nat * gmap string bool)) :
  (∀ c, c ∈ cs → c.1 ≠ id) → received id cs = [].
Proof.
  intros H. unfold received.
  induction cs as [|c cs IH]; [done|].
  rewrite filter_cons_False.
  - apply IH. intros c' Hc'. apply H. by apply list_elem_of_further.
  - apply H. apply list_elem_of_here.
Qed.

(** A notification round reaches the registered subscriptions only. *)
Lemma received_notify id (v : gmap string bool) (subs : list nat) :
  id ∉ subs → received id ((λ i, (i, v)) <$> subs) = [].
Proof.
  intros Hid. apply received_none. intros c Hc.
  apply list_elem_of_fmap in Hc as (i & -> & Hi). simpl. congruence.
Qed.

Lemma names_eq : names = ["sm"; "md"; "lg"; "xl"; "2xl"].
Proof. reflexivity. Qed.

Lemma default_dom : dom _default = list_to_set names.
Proof. unfold _default. by rewrite dom_list_to_map_L. Qed.

Lemma default_lookup key : key ∈ names → _default !! key = Some false.
Proof.
  rewrite names_eq. intros H.
  repeat (apply elem_of_cons in H as [->|H]; [by vm_compute|]).
  by apply not_elem_of_nil in H.
Qed.

Lemma media_query_wf window : wf (media_query window).
Proof.
  destruct window as [win|]; split; simpl;
    try apply default_dom; try set_solver; try (intros [] ?; lia).
  intros r q key Hr Hin.
  do 5 (destruct r as [|r];
        [injection Hr as <-; simpl in Hin;
         apply list_elem_of_singleton in Hin; injection Hin as ->;
         split; [reflexivity | rewrite names_eq; set_solver] |]).
  done.
Qed.

(** *** Events *)

Lemma onChange_ok w r q key :
  obj_get key (listeners w) = Some (r, OnChange key) →
  heap w !! r = Some q →
  onChange key w = Ok (update (λ s, <[key := matches q]> s) w).
Proof. unfold onChange. by intros -> ->. Qed.

(** When every listener of the event finds its object in the table,
    none throws, and each writes the flag of the object under its
    key. *)
Lemma dispatch_ok ls w r q :
  heap w !! r = Some q →
  (∀ key, OnChange key ∈ ls →
     obj_get key (listeners w) = Some (r, OnChange key)) →
  dispatch ls w = Ok (fire (matches q) ls w).
Proof.
  revert w. induction ls as [|[key] ls IH]; intros w Hr Hls; [done|].
  simpl. rewrite (onChange_ok w r q key); [|apply Hls; left|done].
  apply IH; [done|].
  intros key' Hkey'. simpl. apply Hls. by right.
Qed.

Lemma fire_frame b ls w :
  heap (fire b ls w) = heap w ∧
  listeners (fire b ls w) = listeners w ∧
  on_destroy (fire b ls w) = on_destroy w ∧
  subscribers (fire b ls w) = subscribers w ∧
  fresh (fire b ls w) = fresh w.
Proof.
  revert w. induction ls as [|l ls IH]; intros w; [done|].
  simpl. by destruct (IH (update (λ s, <[key_of l := b]> s) w))
    as (-> & -> & -> & -> & ->).
Qed.

Lemma fire_dom b ls w :
  (∀ l, l ∈ ls → key_of l ∈ dom (value w)) →
  dom (value (fire b ls w)) = dom (value w).
Proof.
  revert w. induction ls as [|l ls IH]; intros w Hls; [done|].
  assert (Hl : key_of l ∈ dom (value w)) by (apply Hls; left).
  simpl. rewrite IH; simpl; rewrite dom_insert_L.
  - apply subseteq_union_1_L. by apply singleton_subseteq_l.
  - intros l' Hl'. apply elem_of_union_r, Hls. by right.
Qed.

Lemma fire_calls b ls w c :
  c ∈ calls (fire b ls w) → c ∈ calls w ∨ c.1 ∈ subscribers w.
Proof.
  revert w. induction ls as [|l ls IH]; intros w; [by left|].
  simpl. intros Hc. apply IH in Hc as [Hc|Hc]; [|by right].
  simpl in Hc. apply elem_of_app in Hc as [Hc|Hc]; [by left|].
  apply list_elem_of_fmap in Hc as (i & -> & Hi). by right.
Qed.

(** A subscription that is not registered receives nothing from an
    event. *)
Lemma fire_received b ls w id :
  id ∉ subscribers w →
  received id (calls (fire b ls w)) = received id (calls w).
Proof.
  revert w. induction ls as [|l ls IH]; intros w Hid; [done|].
  simpl. rewrite IH by done. simpl.
  by rewrite received_app, received_notify, app_nil_r.
Qed.

(** *** The destroy callback *)

Lemma remove_listeners_release es w :
  foldl (λ w e, removeEventListener e.2.1 e.2.2 w) w es
  = set_heap (release (heap w) es) w.
Proof.
  revert w. induction es as [|e es IH]; intros w; simpl.
  - by rewrite set_heap_same.
  - by rewrite IH.
Qed.

(** A listener that is still registered after the callback was
    registered before, and no entry of the table names it. *)
Lemma release_lookup es h r q' l :
  release h es !! r = Some q' →
  l ∈ change q' →
  ∃ q, h !! r = Some q ∧ l ∈ change q ∧
       ∀ e, e ∈ es → ¬ (e.2.1 = r ∧ e.2.2 = l).
Proof.
  revert h. induction es as [|e es IH]; intros h Hr Hl; simpl in Hr.
  - exists q'. split; [done|]. split; [done|].
    intros e He. by apply elem_of_nil in He.
  - destruct (IH _ Hr Hl) as (q1 & Hq1 & Hl1 & Hes).
    destruct (decide (e.2.1 = r)) as [Heq|Hne].
    + subst r. rewrite list_lookup_alter_eq in Hq1.
      destruct (h !! e.2.1) as [q|] eqn:Hq; simpl in Hq1; [|done].
      injection Hq1 as <-. simpl in Hl1.
      apply list_elem_of_filter in Hl1 as [Hne Hl1].
      exists q. split; [done|]. split; [done|].
      intros e' [->|He']%elem_of_cons; [|by apply Hes].
      intros [_ Heq]. congruence.
    + rewrite list_lookup_alter_ne in Hq1 by done.
      exists q1. split; [done|]. split; [done|].
      intros e' [->|He']%elem_of_cons; [|by apply Hes].
      intros [Heq _]. congruence.
Qed.

(** Nothing is left to release where no listener is registered. *)
Lemma release_id es h :
  Forall (λ q, change q = []) h → release h es = h.
Proof.
  intros Hh. induction es as [|e es IH]; simpl; [done|].
  rewrite <- IH at 2. f_equal.
  apply list_eq. intros i.
  destruct (decide (i = e.2.1)) as [->|Hne].
  - rewrite list_lookup_alter_eq.
    destruct (h !! e.2.1) as [q|] eqn:Hq; [|done]. simpl. f_equal.
    pose proof (Forall_lookup_1 _ _ _ _ Hh Hq) as Hc. simpl in Hc.
    destruct q as [md mt ch]. simpl in Hc. subst ch. done.
  - by rewrite list_lookup_alter_ne.
Qed.

(** The callback touches the heap only. *)
Lemma Teardown_heap_only w :
  wf w → Teardown w = set_heap (heap (Teardown w)) w.
Proof.
  intros Hw. unfold Teardown.
  destruct (wf_hooks w Hw) as [->|[-> _]]; simpl.
  - unfold remove_listeners. by rewrite remove_listeners_release.
  - by rewrite set_heap_same.
Qed.

(** After the callback, no object has a listener of the store. *)
Lemma Teardown_released w :
  wf w → Forall (λ q, change q = []) (heap (Teardown w)).
Proof.
  intros Hw. unfold Teardown.
  destruct (wf_hooks w Hw) as [->|[-> Hh]]; simpl.
  - unfold remove_listeners. rewrite remove_listeners_release. simpl.
    apply Forall_lookup. intros r q' Hr.
    apply elem_of_nil_inv. intros [key] Hl.
    destruct (release_lookup _ _ _ _ _ Hr Hl) as (q & Hq & Hlq & Hes).
    destruct (wf_handler w Hw r q key Hq Hlq) as [Hget _].
    apply obj_get_elem in Hget. by apply (Hes _ Hget).
  - rewrite Hh. constructor.
Qed.

(** Running the callback again changes nothing. *)
Lemma Teardown_idemp w : wf w → Teardown (Teardown w) = Teardown w.
Proof.
  intros Hw.
  pose proof (Teardown_released w Hw) as Hrel.
  pose proof (Teardown_heap_only w Hw) as Heq.
  set (w1 := Teardown w) in *.
  unfold Teardown at 1.
  assert (on_destroy w1 = on_destroy w) as -> by (by rewrite Heq).
  destruct (wf_hooks w Hw) as [->|[-> _]]; simpl; [|done].
  unfold remove_listeners. rewrite remove_listeners_release.
  rewrite release_id by done. apply set_heap_same.
Qed.

(** *** Every operation keeps the world well formed, and none throws *)

Lemma Teardown_wf w : wf w → wf (Teardown w).
Proof.
  intros Hw.
  pose proof (Teardown_released w Hw) as Hrel.
  pose proof (Teardown_heap_only w Hw) as Heq.
  destruct (wf_hooks w Hw) as [Hh|[Hh Hheap]].
  - rewrite Heq. split; simpl; try apply Hw.
    + intros r q key Hr Hin.
      pose proof (Forall_lookup_1 _ _ _ _ Hrel Hr) as Hc. simpl in Hc.
      rewrite Hc in Hin. by apply elem_of_nil in Hin.
    + by left.
  - unfold Teardown. by rewrite Hh.
Qed.

Lemma subscribe_wf w : wf w → wf (subscribe w).2.
Proof.
  intros Hw. split; simpl; try apply Hw.
  - intros id [Hid|Hid%list_elem_of_singleton]%elem_of_app; [|lia].
    apply (wf_subscribers w Hw) in Hid. lia.
  - intros c [Hc|Hc%list_elem_of_singleton]%elem_of_app; [|subst; simpl; lia].
    apply (wf_calls w Hw) in Hc. lia.
Qed.

Lemma unsubscribe_wf id w : wf w → wf (unsubscribe id w).
Proof.
  intros Hw. split; simpl; try apply Hw.
  intros i [_ Hi]%list_elem_of_filter. by apply Hw.
Qed.

(** A change event on an existing object runs its listeners on the
    updated object. *)
Lemma viewport_change_fire w r q b :
  wf w →
  heap w !! r = Some q →
  viewport_change r b w
  = Ok (fire b (change q) (set_heap (<[r := set_matches b q]> (heap w)) w)).
Proof.
  intros Hw Hr. unfold viewport_change. rewrite Hr.
  apply (dispatch_ok _ _ r (set_matches b q)); simpl.
  - apply list_lookup_insert_eq. by eapply lookup_lt_Some.
  - intros key Hkey. by apply (wf_handler w Hw r q key).
Qed.

Lemma change_wf w r q b :
  wf w →
  heap w !! r = Some q →
  wf (fire b (change q) (set_heap (<[r := set_matches b q]> (heap w)) w)).
Proof.
  intros Hw Hr.
  set (w1 := set_heap (<[r := set_matches b q]> (heap w)) w).
  destruct (fire_frame b (change q) w1) as (Hh & Hl & Hd & Hs & Hf).
  split.
  - rewrite fire_dom; [apply Hw|].
    intros [key] Hkey. simpl. rewrite (wf_dom w Hw).
    apply elem_of_list_to_set. by apply (wf_handler w Hw r q key).
  - rewrite Hh, Hl. simpl. intros r' q' key Hr' Hin.
    destruct (decide (r = r')) as [<-|Hne].
    + rewrite list_lookup_insert_eq in Hr' by (by eapply lookup_lt_Some).
      injection Hr' as <-. by apply (wf_handler w Hw r q key).
    + rewrite list_lookup_insert_ne in Hr' by done.
      by apply (wf_handler w Hw r' q' key).
  - rewrite Hd. simpl.
    destruct (wf_hooks w Hw) as [?|[_ Hheap]]; [by left|].
    by rewrite Hheap in Hr.
  - rewrite Hs, Hf. apply Hw.
  - rewrite Hf. intros c [Hc|Hc]%fire_calls.
    + by apply (wf_calls w Hw).
    + by apply (wf_subscribers w Hw).
Qed.

Lemma exec_wf o w :
  wf w → ∃ w', exec o w = Ok w' ∧ wf w' ∧ fresh w ≤ fresh w'.
Proof.
  intros Hw. destruct o as [|id|r b|]; simpl.
  - eexists. split; [done|]. split; [by apply subscribe_wf|simpl; lia].
  - eexists. split; [done|]. split; [by apply unsubscribe_wf|done].
  - destruct (heap w !! r) as [q|] eqn:Hr.
    + eexists. split; [by apply viewport_change_fire|].
      split; [by apply change_wf|].
      by destruct (fire_frame b (change q)
        (set_heap (<[r := set_matches b q]> (heap w)) w))
        as (_ & _ & _ & _ & ->).
    + exists w. unfold viewport_change. by rewrite Hr.
  - eexists. split; [done|]. split; [by apply Teardown_wf|].
    by rewrite (Teardown_heap_only w Hw).
Qed.

Lemma run_wf ops w :
  wf w → ∃ w', run ops w = Ok w' ∧ wf w' ∧ fresh w ≤ fresh w'.
Proof.
  revert w. induction ops as [|o ops IH]; intros w Hw; simpl.
  - by exists w.
  - destruct (exec_wf o w Hw) as (w1 & -> & Hw1 & Hf1). simpl.
    destruct (IH w1 Hw1) as (w2 & Hrun & Hw2 & Hf2).
    exists w2. split; [done|]. split; [done|lia].
Qed.

(** Whatever happens to a store after it is built, nothing throws. *)
Lemma reach window ops : ∃ w, run ops (media_query window) = Ok w ∧ wf w.
Proof.
  destruct (run_wf ops _ (media_query_wf window)) as (w & Hrun & Hw & _).
  by exists w.
Qed.

(** *** Worlds without listeners

    Once no object has a listener (after the destroy callback, or
    when there never was a [window]), the state is frozen and the
    subscriptions made so far are never called again. *)

Lemma exec_quiet o w :
  wf w → quiet w →
  ∃ w', exec o w = Ok w' ∧ wf w' ∧ quiet w' ∧
        value w' = value w ∧ fresh w ≤ fresh w' ∧
        ∀ id, id < fresh w →
              received id (calls w') = received id (calls w).
Proof.
  intros Hw Hq. destruct o as [|i|r b|]; simpl.
  - eexists. split; [done|]. split; [by apply subscribe_wf|].
    repeat split; [done|simpl; lia|].
    intros id Hid. simpl. rewrite received_app, (received_none id [_]).
    + by rewrite app_nil_r.
    + intros c ->%list_elem_of_singleton. simpl. lia.
  - eexists. split; [done|]. split; [by apply unsubscribe_wf|done].
  - destruct (heap w !! r) as [q|] eqn:Hr.
    + pose proof (Forall_lookup_1 _ _ _ _ Hq Hr) as Hc. simpl in Hc.
      pose proof (change_wf w r q b Hw Hr) as Hw'.
      rewrite (viewport_change_fire w r q b Hw Hr).
      rewrite Hc in *. simpl in *.
      eexists. split; [done|]. split; [done|].
      repeat split; try done.
      unfold quiet. simpl. by apply Forall_insert.
    + exists w. unfold viewport_change. by rewrite Hr.
  - eexists. split; [done|]. split; [by apply Teardown_wf|].
    split; [by apply Teardown_released|].
    by rewrite (Teardown_heap_only w Hw).
Qed.

Lemma run_quiet ops w :
  wf w → quiet w →
  ∃ w', run ops w = Ok w' ∧ wf w' ∧ quiet w' ∧
        value w' = value w ∧ fresh w ≤ fresh w' ∧
        ∀ id, id < fresh w →
              received id (calls w') = received id (calls w).
Proof.
  revert w. induction ops as [|o ops IH]; intros w Hw Hq; simpl.
  - by exists w.
  - destruct (exec_quiet o w Hw Hq) as (w1 & -> & Hw1 & Hq1 & Hv1 & Hf1 & Hr1).
    simpl.
    destruct (IH w1 Hw1 Hq1) as (w2 & Hrun & Hw2 & Hq2 & Hv2 & Hf2 & Hr2).
    exists w2. split; [done|]. split; [done|]. split; [done|].
    split; [congruence|]. split; [lia|].
    intros id Hid. rewrite Hr2 by lia. by apply Hr1.
Qed.

Lemma quiet_no_window : quiet (media_query None).
Proof. constructor. Qed.

(** *** Before the first change event *)

Lemma Teardown_value w : wf w → value (Teardown w) = value w.
Proof. intros Hw. by rewrite (Teardown_heap_only w Hw). Qed.

Lemma run_no_change ops w :
  existsb is_change ops = false →
  wf w →
  ∃ w', run ops w = Ok w' ∧ value w' = value w.
Proof.
  revert w. induction ops as [|o ops IH]; intros w Hops Hw; simpl.
  - by exists w.
  - simpl in Hops. apply orb_false_iff in Hops as [Ho Hops].
    destruct (exec_wf o w Hw) as (w1 & Hex & Hw1 & _).
    assert (Hv : value w1 = value w).
    { destruct o; simpl in Ho, Hex; try done;
        injection Hex as <-; [done|done|by apply Teardown_value]. }
    rewrite Hex. simpl.
    destruct (IH w1 Hops Hw1) as (w2 & Hrun & Hv2).
    exists w2. split; [done|congruence].
Qed.

(** *** While the listeners are in place *)

Lemma media_query_live win : live (media_query (Some win)).
Proof.
  intros key Hkey. rewrite names_eq in Hkey.
  apply elem_of_cons in Hkey as [->|Hkey].
  { exists 0, {| media := "(min-width: 640px)";
                 matches := win "(min-width: 640px)";
                 change := [OnChange "sm"] |}. by vm_compute. }
  apply elem_of_cons in Hkey as [->|Hkey].
  { exists 1, {| media := "(min-width: 768px)";
                 matches := win "(min-width: 768px)";
                 change := [OnChange "md"] |}. by vm_compute. }
  apply elem_of_cons in Hkey as [->|Hkey].
  { exists 2, {| media := "(min-width: 1024px)";
                 matches := win "(min-width: 1024px)";
                 change := [OnChange "lg"] |}. by vm_compute. }
  apply elem_of_cons in Hkey as [->|Hkey].
  { exists 3, {| media := "(min-width: 1280px)";
                 matches := win "(min-width: 1280px)";
                 change := [OnChange "xl"] |}. by vm_compute. }
  apply elem_of_cons in Hkey as [->|Hkey].
  { exists 4, {| media := "(min-width: 1536px)";
                 matches := win "(min-width: 1536px)";
                 change := [OnChange "2xl"] |}. by vm_compute. }
  by apply elem_of_nil in Hkey.
Qed.

Lemma exec_live o w :
  is_destroy o = false →
  wf w → live w →
  ∃ w', exec o w = Ok w' ∧ wf w' ∧ live w'.
Proof.
  intros Ho Hw Hl.
  destruct (exec_wf o w Hw) as (w1 & Hex & Hw1 & _).
  exists w1. split; [done|]. split; [done|].
  destruct o as [|i|r b|]; simpl in Ho, Hex; try done.
  - by injection Hex as <-.
  - by injection Hex as <-.
  - destruct (heap w !! r) as [q|] eqn:Hr.
    + rewrite (viewport_change_fire w r q b Hw Hr) in Hex.
      injection Hex as <-.
      destruct (fire_frame b (change q)
        (set_heap (<[r := set_matches b q]> (heap w)) w))
        as (Hh & Hls & _).
      intros key Hkey. destruct (Hl key Hkey) as (r0 & q0 & Hget & Hr0 & Hc0).
      rewrite Hh, Hls. simpl.
      destruct (decide (r = r0)) as [<-|Hne].
      * exists r, (set_matches b q). split; [done|].
        split; [|simpl; congruence].
        apply list_lookup_insert_eq. by eapply lookup_lt_Some.
      * exists r0, q0. split; [done|]. split; [|done].
        by rewrite list_lookup_insert_ne.
    + unfold viewport_change in Hex. rewrite Hr in Hex.
      by injection Hex as <-.
Qed.

Lemma run_live ops w :
  existsb is_destroy ops = false →
  wf w → live w →
  ∃ w', run ops w = Ok w' ∧ wf w' ∧ live w'.
Proof.
  revert w. induction ops as [|o ops IH]; intros w Hops Hw Hl; simpl.
  - by exists w.
  - simpl in Hops. apply orb_false_iff in Hops as [Ho Hops].
    destruct (exec_live o w Ho Hw Hl) as (w1 & -> & Hw1 & Hl1). simpl.
    by apply IH.
Qed.

(** *** After a subscription was removed *)

Lemma exec_unsubscribed o w id :
  wf w → id ∉ subscribers w → id < fresh w →
  ∃ w', exec o w = Ok w' ∧ wf w' ∧
        (id ∉ subscribers w') ∧ (id < fresh w') ∧
        received id (calls w') = received id (calls w).
Proof.
  intros Hw Hid Hf.
  destruct (exec_wf o w Hw) as (w1 & Hex & Hw1 & Hf1).
  exists w1. split; [done|]. split; [done|].
  destruct o as [|i|r b|]; simpl in Hex.
  - injection Hex as <-. simpl. split; [|split; [lia|]].
    + intros [?|Heq%list_elem_of_singleton]%elem_of_app; [done|lia].
    + rewrite received_app, (received_none id [_]).
      * by rewrite app_nil_r.
      * intros c ->%list_elem_of_singleton. simpl. lia.
  - injection Hex as <-. simpl. split; [|done].
    intros [_ ?]%list_elem_of_filter. done.
  - destruct (heap w !! r) as [q|] eqn:Hr.
    + rewrite (viewport_change_fire w r q b Hw Hr) in Hex.
      injection Hex as <-.
      destruct (fire_frame b (change q)
        (set_heap (<[r := set_matches b q]> (heap w)) w))
        as (_ & _ & _ & -> & ->).
      split; [done|]. split; [done|].
      by rewrite fire_received.
    + unfold viewport_change in Hex. rewrite Hr in Hex.
      by injection Hex as <-.
  - injection Hex as <-. by rewrite (Teardown_heap_only w Hw).
Qed.

Lemma run_unsubscribed ops w id :
  wf w → id ∉ subscribers w → id < fresh w →
  ∃ w', run ops w = Ok w' ∧ wf w' ∧
        (id ∉ subscribers w') ∧
        received id (calls w') = received id (calls w).
Proof.
  revert w. induction ops as [|o ops IH]; intros w Hw Hid Hf; simpl.
  - by exists w.
  - destruct (exec_unsubscribed o w id Hw Hid Hf)
      as (w1 & -> & Hw1 & Hid1 & Hf1 & Hr1). simpl.
    destruct (IH w1 Hw1 Hid1 Hf1) as (w2 & Hrun & Hw2 & Hid2 & Hr2).
    exists w2. split; [done|]. split; [done|]. split; [done|congruence].
Qed.

(** *** Subscribing *)

(** A new subscription has never been called, and subscribing calls
    it once, with the current state. *)
Lemma subscribe_received w :
  wf w →
  received (subscribe w).1 (calls w) = [] ∧
  received (subscribe w).1 (calls (subscribe w).2) = [value w].
Proof.
  intros Hw. simpl.
  assert (Hnone : received (fresh w) (calls w) = []).
  { apply received_none. intros c Hc.
    apply (wf_calls w Hw) in Hc. lia. }
  split; [done|].
  rewrite received_app, Hnone. unfold received.
  by rewrite filter_cons_True, filter_nil.
Qed.

Lemma Header_unfold w :
  Header w
  = (unsubscribe (subscribe w).1 (subscribe w).2,
     s ← last (received (subscribe w).1 (calls (subscribe w).2)); s !! "lg").
Proof. done. Qed.

(** [Header] logs the [lg] flag of the current state. *)
Lemma Header_logs w : wf w → (Header w).2 = value w !! "lg".
Proof.
  intros Hw. rewrite Header_unfold.
  destruct (subscribe_received w Hw) as [_ Hrec].
  cbn [snd]. by rewrite Hrec.
Qed.

(** *** The store at work *)

(** A store built while every query matches still starts all false;
    the first event on the object of [lg] (object 2) reaches the one
    subscription registered by then; the second subscription is called
    on subscribing and on the event for [sm]; after the first handle
    was invoked and the view destroyed, nothing more is delivered. *)
Example a_session :
  (w ← run [Subscribe; Change 2 true; Subscribe; Change 0 true;
            Unsubscribe 0; Change 2 false; Destroy; Change 1 true]
           (media_query (Some (λ _, true)));
   Ok (map_to_list (CurrentState w),
       subscribers w,
       (λ s, s !! "lg") <$> received 0 (calls w),
       (λ s, s !! "lg") <$> received 1 (calls w),
       change <$> heap w))
  = Ok ([("sm", true); ("md", false); ("2xl", false); ("lg", false);
         ("xl", false)],
        [1],
        [Some false; Some true; Some true],
        [Some true; Some true; Some false],
        [[]; []; []; []; []]).
Proof. vm_compute. reflexivity. Qed.

(** On the server there is no [window]: [Layout] logs [false], and
    [Header] leaves no subscription behind. *)
Example server_render :
  (Layout None).2 = Some false ∧
  subscribers (Layout None).1 = [] ∧
  heap (Layout None).1 = [] ∧
  on_destroy (Layout None).1 = [].
Proof. by vm_compute. Qed.

(** *** The claims about the store *)

(** C3. Whatever the viewport is when the store is built, and until
    the first change event is delivered, the current state is the
    constant [_default], which holds [false] for every breakpoint
    name; no match result is read to produce it. *)
Theorem cold_start_all_false (window : option Window) (ops : list Op) :
  existsb is_change ops = false →
  CurrentState (media_query window) = _default ∧
  ∃ w, run ops (media_query window) = Ok w ∧
       CurrentState w = _default ∧
       Forall (λ key, CurrentState w !! key = Some false) names.
Proof.
  intros Hops.
  assert (Hinit : value (media_query window) = _default)
    by (by destruct window).
  split; [done|].
  destruct (run_no_change ops _ Hops (media_query_wf window))
    as (w & Hrun & Hv).
  exists w. split; [done|].
  unfold CurrentState. rewrite Hv, Hinit. split; [done|].
  apply Forall_forall. apply default_lookup.
Qed.

Lemma cold_start_all_false_witness :
  existsb is_change [Subscribe; Destroy; Unsubscribe 0] = false ∧
  CurrentState (media_query (Some (λ _, true))) = _default ∧
  ∃ w, run [Subscribe; Destroy; Unsubscribe 0]
           (media_query (Some (λ _, true))) = Ok w ∧
       CurrentState w = _default ∧
       Forall (λ key, CurrentState w !! key = Some false) names.
Proof.
  split; [reflexivity|].
  apply (cold_start_all_false (Some (λ _, true))
           [Subscribe; Destroy; Unsubscribe 0]).
  reflexivity.
Defined.

(** **** [media_query] on a host *)

Lemma for_in_register win es w :
  for_in (register_on (Some win)) w es = Ok (foldl (register win) w es).
Proof.
  revert w. induction es as [|e es IH]; intros w; [done|]. apply IH.
Qed.

(** With [matchMedia], and without [window], [media_query_on] is
    [media_query]. *)
Lemma media_query_on_Browser win :
  media_query_on (Browser win) = Ok (media_query (Some win)).
Proof.
  unfold media_query_on, media_query. cbn [window_of].
  by rewrite for_in_register.
Qed.

Lemma media_query_on_NoWindow :
  media_query_on NoWindow = Ok (media_query None).
Proof. done. Qed.

(** A host without a facility to watch the viewport on which building
    the store does raise an error: a [window] that has no
    [matchMedia]. The test [typeof window !== "undefined"] lets it
    through, and the first [window.matchMedia(...)] throws, out of
    [media_query] and out of [Layout]. So it does not hold that
    [media_query] succeeds on every host that cannot watch the
    viewport. *)
Lemma window_without_matchMedia_throws :
  can_watch WindowOnly = false ∧
  media_query_on WindowOnly = Throw TypeError ∧
  Layout_on WindowOnly = Throw TypeError ∧
  ¬ (∀ h, can_watch h = false → ∃ w, media_query_on h = Ok w).
Proof.
  split; [done|]. split; [done|]. split; [done|].
  intros Hall. by destruct (Hall WindowOnly eq_refl) as [w Hw].
Qed.

(** C4. On a host where [window] is undefined, building the store
    registers nothing and throws nothing, [Layout] renders and logs
    [false], and whatever happens afterwards the state stays
    [_default]: no breakpoint matches. *)
Theorem window_undefined_degrades (h : Host) (ops : list Op) :
  window_of h = None →
  media_query_on h = Ok (writable _default) ∧
  (∃ w, Layout_on h = Ok (w, Some false)) ∧
  ∃ w0 w, media_query_on h = Ok w0 ∧
          run ops w0 = Ok w ∧
          CurrentState w = _default ∧
          Forall (λ key, CurrentState w !! key = Some false) names.
Proof.
  intros Hh. destruct h; try done.
  split; [done|]. split; [by eexists|].
  destruct (run_quiet ops _ (media_query_wf None) quiet_no_window)
    as (w & Hrun & _ & _ & Hv & _).
  exists (media_query None), w. split; [done|]. split; [done|].
  unfold CurrentState. rewrite Hv. split; [done|].
  apply Forall_forall. apply default_lookup.
Qed.

Lemma window_undefined_degrades_witness :
  window_of NoWindow = None ∧
  media_query_on NoWindow = Ok (writable _default) ∧
  (∃ w, Layout_on NoWindow = Ok (w, Some false)) ∧
  ∃ w0 w, media_query_on NoWindow = Ok w0 ∧
          run [Subscribe; Change 2 true; Destroy; Unsubscribe 0] w0
          = Ok w ∧
          CurrentState w = _default ∧
          Forall (λ key, CurrentState w !! key = Some false) names.
Proof.
  split; [reflexivity|].
  apply (window_undefined_degrades NoWindow
           [Subscribe; Change 2 true; Destroy; Unsubscribe 0]).
  reflexivity.
Defined.

(** C8. In every world the store reaches, the keys of the state are
    exactly [sm], [md], [lg], [xl] and [2xl], and no operation, a
    change event included, adds or removes a key. *)
Theorem keys_fixed (window : option Window) (ops : list Op) :
  ∃ w, run ops (media_query window) = Ok w ∧
       dom (CurrentState w) = list_to_set ["sm"; "md"; "lg"; "xl"; "2xl"] ∧
       ∀ o, ∃ w', exec o w = Ok w' ∧
                  dom (CurrentState w') = dom (CurrentState w).
Proof.
  destruct (reach window ops) as (w & Hrun & Hw).
  exists w. split; [done|]. split; [apply (wf_dom w Hw)|].
  intros o. destruct (exec_wf o w Hw) as (w' & Hex & Hw' & _).
  exists w'. split; [done|].
  unfold CurrentState. by rewrite (wf_dom w Hw), (wf_dom w' Hw').
Qed.

(** C5. While the listeners are in place, a change event on the
    object of a breakpoint name, with the new match value [b], makes
    the state the old one with that name set to [b], every other
    name as before, and calls each registered subscription once with
    this new state. *)
Theorem change_notifies_with_frame
    (win : Window) (ops : list Op) (key : string) :
  existsb is_destroy ops = false →
  key ∈ names →
  ∃ w r, run ops (media_query (Some win)) = Ok w ∧
         mql_of key w = Some r ∧
         ∀ b, ∃ w', exec (Change r b) w = Ok w' ∧
                    CurrentState w' = <[key := b]> (CurrentState w) ∧
                    CurrentState w' !! key = Some b ∧
                    (∀ k, k ≠ key →
                          CurrentState w' !! k = CurrentState w !! k) ∧
                    subscribers w' = subscribers w ∧
                    calls w' = calls w ++
                      ((λ id, (id, CurrentState w')) <$> subscribers w).
Proof.
  intros Hops Hkey.
  destruct (run_live ops _ Hops (media_query_wf (Some win))
              (media_query_live win)) as (w & Hrun & Hw & Hl).
  destruct (Hl key Hkey) as (r & q & Hget & Hr & Hc).
  exists w, r. split; [done|].
  split; [unfold mql_of; by rewrite Hget|].
  intros b. eexists. simpl.
  split; [by apply viewport_change_fire|].
  rewrite Hc. simpl. unfold CurrentState. simpl.
  split; [done|]. split; [apply lookup_insert_eq|].
  split; [|done].
  intros k Hk. by apply lookup_insert_ne.
Qed.

Lemma change_notifies_with_frame_witness :
  existsb is_destroy [Subscribe; Change 0 true; Subscribe] = false ∧
  "lg" ∈ names ∧
  ∃ w r, run [Subscribe; Change 0 true; Subscribe]
             (media_query (Some (λ _, false))) = Ok w ∧
         mql_of "lg" w = Some r ∧
         ∀ b, ∃ w', exec (Change r b) w = Ok w' ∧
                    CurrentState w' = <["lg" := b]> (CurrentState w) ∧
                    CurrentState w' !! "lg" = Some b ∧
                    (∀ k, k ≠ "lg" →
                          CurrentState w' !! k = CurrentState w !! k) ∧
                    subscribers w' = subscribers w ∧
                    calls w' = calls w ++
                      ((λ id, (id, CurrentState w')) <$> subscribers w).
Proof.
  assert (Hlg : "lg" ∈ names) by compute_done.
  split; [reflexivity|]. split; [exact Hlg|].
  apply (change_notifies_with_frame (λ _, false)
           [Subscribe; Change 0 true; Subscribe] "lg");
    [reflexivity|exact Hlg].
Defined.

(** C6. With a [window], building the store registers one listener
    per breakpoint name. In every world the store reaches, the destroy
    callback leaves no object with a listener; run a second time it
    changes nothing (and nothing in it can throw); and whatever
    happens after the first run, no listener is left to fire: the
    state stays as it was and the subscriptions made before are not
    called any more. *)
Theorem teardown_releases_and_is_idempotent
    (window : option Window) (ops : list Op) :
  (∀ win, change <$> heap (media_query (Some win))
          = (λ key, [OnChange key]) <$> names) ∧
  ∃ w, run ops (media_query window) = Ok w ∧
       quiet (Teardown w) ∧
       Teardown (Teardown w) = Teardown w ∧
       ∀ ops', ∃ w', run ops' (Teardown w) = Ok w' ∧
                     quiet w' ∧
                     CurrentState w' = CurrentState w ∧
                     Forall (λ id, received id (calls w')
                                   = received id (calls w))
                            (subscribers w).
Proof.
  split; [done|].
  destruct (reach window ops) as (w & Hrun & Hw).
  exists w. split; [done|].
  split; [by apply Teardown_released|].
  split; [by apply Teardown_idemp|].
  intros ops'.
  destruct (run_quiet ops' _ (Teardown_wf w Hw) (Teardown_released w Hw))
    as (w' & Hrun' & _ & Hq' & Hv' & _ & Hrec).
  exists w'. split; [done|]. split; [done|].
  rewrite (Teardown_heap_only w Hw) in Hv', Hrec. simpl in Hv', Hrec.
  split; [done|].
  apply Forall_forall. intros id Hid.
  apply Hrec. by apply (wf_subscribers w Hw).
Qed.

(** C7. Take any subscription, made at any time, and let anything
    happen until its handle is invoked. From then on, whatever
    happens (breakpoint flips included), the subscription is not
    registered and its callback has been called exactly as often as
    at the moment of unsubscribing. This holds in particular for the
    subscription [Header] makes and removes, which is called once. *)
Theorem unsubscribe_stops_calls
    (window : option Window) (ops1 ops2 ops3 : list Op) :
  ∃ w1, run ops1 (media_query window) = Ok w1 ∧
  ∃ w2, run ops2 (subscribe w1).2 = Ok w2 ∧
  ∃ w3, run ops3 (unsubscribe (subscribe w1).1 w2) = Ok w3 ∧
        ((subscribe w1).1 ∉ subscribers w3) ∧
        call_count (subscribe w1).1 w3 = call_count (subscribe w1).1 w2 ∧
  ∃ w4, run ops3 (Header w1).1 = Ok w4 ∧
        call_count (subscribe w1).1 w4 = 1.
Proof.
  destruct (reach window ops1) as (w1 & Hrun1 & Hw1).
  exists w1. split; [done|].
  destruct (run_wf ops2 _ (subscribe_wf w1 Hw1)) as (w2 & Hrun2 & Hw2 & Hf2).
  exists w2. split; [done|].
  set (id := (subscribe w1).1) in *. simpl in Hf2.
  assert (Hgone : ∀ w, id ∉ subscribers (unsubscribe id w)).
  { intros w [? _]%list_elem_of_filter. done. }
  destruct (run_unsubscribed ops3 (unsubscribe id w2) id)
    as (w3 & Hrun3 & _ & Hid3 & Hrec3);
    [by apply unsubscribe_wf|apply Hgone|simpl; subst id; simpl; lia|].
  exists w3. split; [done|]. split; [done|].
  split; [unfold call_count; by rewrite Hrec3|].
  rewrite Header_unfold. cbn [fst]. fold id.
  destruct (run_unsubscribed ops3 (unsubscribe id (subscribe w1).2) id)
    as (w4 & Hrun4 & _ & _ & Hrec4);
    [by apply unsubscribe_wf, subscribe_wf|apply Hgone
    |simpl; subst id; simpl; lia|].
  exists w4. split; [done|].
  unfold call_count. rewrite Hrec4.
  destruct (subscribe_received w1 Hw1) as [_ Hrec]. fold id in Hrec.
  simpl in Hrec |- *. by rewrite Hrec.
Qed.

(** C10. In every world the store reaches, subscribing calls the new
    callback at once, exactly once, with the current state, without
    any change event: the call is the last one recorded, the
    subscription had none before, and it is registered afterwards;
    this is the call from which [Header] logs the [lg] flag. Without
    [window], whatever happens before and after, the snapshot
    [_default] is all the subscription ever receives. *)
Theorem subscribe_calls_at_once (window : option Window) (ops ops' : list Op) :
  (∃ w, run ops (media_query window) = Ok w ∧
        exec Subscribe w = Ok (subscribe w).2 ∧
        calls (subscribe w).2
        = calls w ++ [((subscribe w).1, CurrentState w)] ∧
        call_count (subscribe w).1 w = 0 ∧
        received (subscribe w).1 (calls (subscribe w).2)
        = [CurrentState w] ∧
        (subscribe w).1 ∈ subscribers (subscribe w).2 ∧
        (Header w).2 = CurrentState w !! "lg") ∧
  (∃ w, run ops (media_query None) = Ok w ∧
   ∃ w', run ops' (subscribe w).2 = Ok w' ∧
         received (subscribe w).1 (calls w') = [_default]).
Proof.
  split.
  - destruct (reach window ops) as (w & Hrun & Hw).
    destruct (subscribe_received w Hw) as [Hnone Hone].
    exists w. split; [done|]. split; [done|]. split; [done|].
    split; [unfold call_count; by rewrite Hnone|].
    split; [done|].
    split; [simpl; apply elem_of_app; right; by left|].
    by apply Header_logs.
  - destruct (run_quiet ops _ (media_query_wf None) quiet_no_window)
      as (w & Hrun & Hw & Hq & Hv & _).
    exists w. split; [done|].
    destruct (run_quiet ops' (subscribe w).2)
      as (w' & Hrun' & _ & _ & _ & _ & Hrec);
      [by apply subscribe_wf|done|].
    exists w'. split; [done|].
    rewrite Hrec by (simpl; lia).
    destruct (subscribe_received w Hw) as [_ ->]. by rewrite Hv.
Qed.

(* ------------------------------------------------------------------ *)
(** *** Beyond the claims: how the store is built and what it tracks *)
(* ------------------------------------------------------------------ *)

(** **** Invariants along a run *)

(** A property that every operation keeps holds after every run. *)
Lemma run_inv (P : World → Prop) ops w :
  (∀ o w w', wf w → P w → exec o w = Ok w' → P w') →
  wf w → P w →
  ∃ w', run ops w = Ok w' ∧ wf w' ∧ P w'.
Proof.
  intros Hstep. revert w.
  induction ops as [|o ops IH]; intros w Hw HP; simpl.
  - by exists w.
  - destruct (exec_wf o w Hw) as (w1 & Hex & Hw1 & _).
    rewrite Hex. simpl. apply IH; [done|]. by apply (Hstep o w w1).
Qed.

(** The same for runs in which the view is not destroyed, with the
    listeners in place. *)
Lemma run_live_inv (P : World → Prop) ops w :
  (∀ o w w', is_destroy o = false → wf w → live w → P w →
             exec o w = Ok w' → P w') →
  existsb is_destroy ops = false →
  wf w → live w → P w →
  ∃ w', run ops w = Ok w' ∧ wf w' ∧ live w' ∧ P w'.
Proof.
  intros Hstep. revert w.
  induction ops as [|o ops IH]; intros w Hops Hw Hl HP; simpl.
  - by exists w.
  - simpl in Hops. apply orb_false_iff in Hops as [Ho Hops].
    destruct (exec_live o w Ho Hw Hl) as (w1 & Hex & Hw1 & Hl1).
    rewrite Hex. simpl. apply IH; try done. by apply (Hstep o w w1).
Qed.

(** **** What the destroy callback does to the heap *)

Lemma release_length es h : length (release h es) = length h.
Proof.
  revert h. induction es as [|e es IH]; intros h; simpl; [done|].
  by rewrite IH, length_alter.
Qed.

(** Releasing listeners changes no query and no flag. *)
Lemma release_fields es h r q' :
  release h es !! r = Some q' →
  ∃ q, h !! r = Some q ∧ media q' = media q ∧ matches q' = matches q.
Proof.
  revert h. induction es as [|e es IH]; intros h Hr; simpl in Hr.
  - by exists q'.
  - destruct (IH _ Hr) as (q1 & Hq1 & Hmd & Hmt).
    destruct (decide (e.2.1 = r)) as [Heq|Hne].
    + subst r. rewrite list_lookup_alter_eq in Hq1.
      destruct (h !! e.2.1) as [q|] eqn:Hq; simpl in Hq1; [|done].
      injection Hq1 as <-. by exists q.
    + rewrite list_lookup_alter_ne in Hq1 by done. by exists q1.
Qed.

Lemma Teardown_heap w :
  wf w → heap (Teardown w) = release (heap w) (listeners w).
Proof.
  intros Hw. unfold Teardown.
  destruct (wf_hooks w Hw) as [->|[-> Hh]]; simpl.
  - unfold remove_listeners. by rewrite remove_listeners_release.
  - rewrite Hh. symmetry. apply nil_length_inv. by rewrite release_length.
Qed.

(** **** What an event does to the state *)

Lemma fire_value_other b ls w k :
  (∀ l, l ∈ ls → key_of l ≠ k) →
  value (fire b ls w) !! k = value w !! k.
Proof.
  revert w. induction ls as [|l ls IH]; intros w Hls; [done|].
  simpl. rewrite IH.
  - simpl. apply lookup_insert_ne. apply Hls. by left.
  - intros l' Hl'. apply Hls. by right.
Qed.

(** In a world with its listeners in place, the event on the object
    of a name runs the listener of that name, and no other. *)
Lemma change_step w r b key :
  wf w → live w → key ∈ names → mql_of key w = Some r →
  ∃ q, heap w !! r = Some q ∧ change q = [OnChange key] ∧
       exec (Change r b) w
       = Ok (update (λ s, <[key := b]> s)
               (set_heap (<[r := set_matches b q]> (heap w)) w)).
Proof.
  intros Hw Hl Hkey Hr.
  destruct (Hl key Hkey) as (r' & q & Hget & Hq & Hc).
  unfold mql_of in Hr. rewrite Hget in Hr. injection Hr as <-.
  exists q. split; [done|]. split; [done|].
  simpl. rewrite (viewport_change_fire w r' q b Hw Hq). by rewrite Hc.
Qed.

(** The objects of two names are two objects. *)
Lemma live_inj w k1 k2 r :
  live w → k1 ∈ names → k2 ∈ names →
  mql_of k1 w = Some r → mql_of k2 w = Some r → k1 = k2.
Proof.
  intros Hl H1 H2 Hr1 Hr2.
  destruct (Hl k1 H1) as (r1 & q1 & Hg1 & Hq1 & Hc1).
  destruct (Hl k2 H2) as (r2 & q2 & Hg2 & Hq2 & Hc2).
  unfold mql_of in Hr1, Hr2. rewrite Hg1 in Hr1. rewrite Hg2 in Hr2.
  injection Hr1 as ->. injection Hr2 as ->.
  rewrite Hq1 in Hq2. injection Hq2 as <-.
  rewrite Hc1 in Hc2. by injection Hc2.
Qed.

(** **** The loop of [media_query] *)

Lemma obj_get_app {A} (key : string) (o o' : list (string * A)) :
  obj_get key (o ++ o')
  = match obj_get key o with Some v => Some v | None => obj_get key o' end.
Proof.
  induction o as [|[k x] o IH]; simpl; [done|]. by case_decide.
Qed.

(** Assigning to a key the object does not have appends the key. *)
Lemma obj_set_fresh {A} (key : string) (v : A) (o : list (string * A)) :
  obj_get key o = None → obj_set key v o = o ++ [(key, v)].
Proof.
  induction o as [|[k x] o IH]; simpl; [done|].
  case_decide; [done|]. intros Hnone. by rewrite IH.
Qed.

(** Among distinct keys, a key is found with the value it stands
    next to. *)
Lemma obj_get_lookup {A} (o : list (string * A)) i key v :
  NoDup o.*1 → o !! i = Some (key, v) → obj_get key o = Some v.
Proof.
  revert i. induction o as [|[k x] o IH]; intros i Hnd Hi; [done|].
  apply NoDup_cons in Hnd as [Hk Hnd]. simpl.
  destruct i as [|i]; simpl in Hi.
  - injection Hi as -> ->. by rewrite decide_True.
  - rewrite decide_False; [by eapply IH|].
    intros ->. apply Hk. apply list_elem_of_fmap.
    exists (key, v). split; [done|]. by eapply list_elem_of_lookup_2.
Qed.

(** One round, for a key that has no entry yet: a new object with the
    one listener, and a new entry at the end of the table. *)
Lemma register_fresh win w key query :
  obj_get key (listeners w) = None →
  register win w (key, query)
  = set_listeners
      (listeners w ++ [(key, (length (heap w), OnChange key))])
      (set_heap (heap w ++ [watcher win (key, query)]) w).
Proof.
  intros Hnone. unfold register, matchMedia, addEventListener. simpl.
  rewrite (obj_set_fresh _ _ _ Hnone).
  rewrite alter_app_r_alt by done. by rewrite Nat.sub_diag.
Qed.

Lemma set_same w : set_listeners (listeners w) (set_heap (heap w) w) = w.
Proof. by destruct w. Qed.

(** The whole loop, over entries with distinct keys none of which is
    in the table yet. *)
Lemma register_loop win entries w :
  NoDup entries.*1 →
  (∀ k, k ∈ entries.*1 → obj_get k (listeners w) = None) →
  foldl (register win) w entries
  = set_listeners
      (listeners w ++
       imap (λ i e, (e.1, (length (heap w) + i, OnChange e.1))) entries)
      (set_heap (heap w ++ (watcher win <$> entries)) w).
Proof.
  revert w. induction entries as [|[key query] es IH]; intros w Hnd Hnew.
  - simpl. rewrite !app_nil_r. by rewrite set_same.
  - rewrite fmap_cons in Hnd. apply NoDup_cons in Hnd as [Hkey Hnd].
    change (foldl (register win) w ((key, query) :: es))
      with (foldl (register win) (register win w (key, query)) es).
    rewrite register_fresh by (apply Hnew; left).
    rewrite IH; [|done|].
    + unfold set_listeners, set_heap. simpl.
      rewrite <- !app_assoc. simpl. f_equal.
      do 2 f_equal; [do 2 f_equal; lia|].
      apply imap_ext. intros i e _. simpl.
      rewrite length_app. simpl. do 2 f_equal. lia.
    + intros k Hk. simpl. rewrite obj_get_app.
      rewrite Hnew by (by right). simpl.
      rewrite decide_False; [done|]. by intros ->.
Qed.

(** X2. For any entries with distinct keys, in place of [sizes], the
    loop of [media_query] makes one object per entry, for the query
    of that entry and with the listener of its key alone, and the
    table leads from each key to its own object; the state of the
    store is not touched. [media_query] is this loop over [sizes]. *)
Theorem one_watcher_per_entry
    (win : Window) (entries : list (string * string))
    (v : gmap string bool) :
  NoDup entries.*1 →
  heap (foldl (register win) (writable v) entries)
  = watcher win <$> entries ∧
  (∀ i key query,
     entries !! i = Some (key, query) →
     mql_of key (foldl (register win) (writable v) entries) = Some i) ∧
  value (foldl (register win) (writable v) entries) = v ∧
  subscribers (foldl (register win) (writable v) entries) = [] ∧
  heap (media_query (Some win)) = watcher win <$> sizes.
Proof.
  intros Hnd.
  assert (Hsizes : heap (media_query (Some win)) = watcher win <$> sizes)
    by (by vm_compute).
  rewrite (register_loop win entries (writable v)) by done. simpl.
  repeat split; try done.
  intros i key query Hi. unfold mql_of.
  rewrite (obj_get_lookup _ i key (i, OnChange key)); [done| |]; simpl.
  - rewrite fmap_imap.
    rewrite (imap_ext _ (const fst)) by done. by rewrite imap_const.
  - rewrite list_lookup_imap, Hi. done.
Qed.

Lemma one_watcher_per_entry_witness :
  NoDup sizes.*1 ∧
  heap (foldl (register (λ _, true)) (writable _default) sizes)
  = watcher (λ _, true) <$> sizes ∧
  (∀ i key query,
     sizes !! i = Some (key, query) →
     mql_of key (foldl (register (λ _, true)) (writable _default) sizes)
     = Some i) ∧
  value (foldl (register (λ _, true)) (writable _default) sizes)
  = _default ∧
  subscribers (foldl (register (λ _, true)) (writable _default) sizes)
  = [] ∧
  heap (media_query (Some (λ _, true))) = watcher (λ _, true) <$> sizes.
Proof.
  assert (Hnd : NoDup sizes.*1) by compute_done.
  split; [exact Hnd|].
  apply (one_watcher_per_entry (λ _, true) sizes _default Hnd).
Defined.

(** **** Nothing is registered after the store is built *)

Lemma kept_refl h : Forall2 kept h h.
Proof. apply Forall_Forall2_diag, Forall_forall. intros q _. split; auto. Qed.

Lemma exec_frozen w0 o w w' :
  wf w → frozen w0 w → exec o w = Ok w' → frozen w0 w'.
Proof.
  intros Hw (Hl & Hd & Hh) Hex.
  destruct o as [|id|r b|]; simpl in Hex.
  - by injection Hex as <-.
  - by injection Hex as <-.
  - destruct (heap w !! r) as [q|] eqn:Hr.
    + rewrite (viewport_change_fire w r q b Hw Hr) in Hex.
      injection Hex as <-.
      destruct (fire_frame b (change q)
        (set_heap (<[r := set_matches b q]> (heap w)) w))
        as (Hfh & Hfl & Hfd & _).
      split; [by rewrite Hfl|]. split; [by rewrite Hfd|].
      rewrite Hfh. simpl.
      destruct (Forall2_lookup_l _ _ _ _ _ Hh Hr) as (q0 & Hr0 & Hk).
      rewrite <- (list_insert_id _ _ _ Hr0).
      by apply Forall2_insert.
    + unfold viewport_change in Hex. rewrite Hr in Hex.
      by injection Hex as <-.
  - injection Hex as <-.
    pose proof (Teardown_released w Hw) as Hq.
    rewrite (Teardown_heap_only w Hw). simpl.
    split; [done|]. split; [done|].
    rewrite (Teardown_heap w Hw) in Hq |- *. simpl.
    apply Forall2_same_length_lookup. split.
    + rewrite release_length. by eapply Forall2_length.
    + intros i q' q0 Hq' Hq0.
      destruct (release_fields _ _ _ _ Hq') as (q & Hi & Hmd & _).
      destruct (Forall2_lookup_lr _ _ _ _ _ _ Hh Hi Hq0) as [Hm _].
      split; [congruence|]. right.
      apply (Forall_lookup_1 _ _ _ _ Hq Hq').
Qed.

Lemma run_frozen ops w :
  wf w → ∃ w', run ops w = Ok w' ∧ wf w' ∧ frozen w w'.
Proof.
  intros Hw. apply (run_inv (frozen w)); [|done|].
  - intros o w1 w2. apply exec_frozen.
  - split; [done|]. split; [done|]. apply kept_refl.
Qed.

(** X3. Whatever happens to a store, nothing is registered after
    [media_query] has returned: the table and the destroy callbacks
    stay as built, there are the same objects for the same queries,
    and each object has the listeners it was given or none. *)
Theorem nothing_registered_later (window : option Window) (ops : list Op) :
  ∃ w, run ops (media_query window) = Ok w ∧
       listeners w = listeners (media_query window) ∧
       on_destroy w = on_destroy (media_query window) ∧
       Forall2 kept (heap w) (heap (media_query window)).
Proof.
  destruct (run_frozen ops _ (media_query_wf window))
    as (w & Hrun & _ & Hf).
  by exists w.
Qed.

(** **** The listener and its object *)

Lemma names_sizes key :
  key ∈ names → ∃ i query, sizes !! i = Some (key, query).
Proof.
  intros ([k query] & -> & He)%list_elem_of_fmap.
  apply list_elem_of_lookup_1 in He as [i Hi]. by exists i, query.
Qed.

(** What [media_query] leaves for an entry of [sizes]. *)
Lemma media_query_entry win i key query :
  sizes !! i = Some (key, query) →
  obj_get key (listeners (media_query (Some win)))
  = Some (i, OnChange key) ∧
  heap (media_query (Some win)) !! i = Some (watcher win (key, query)).
Proof.
  intros Hi. unfold media_query, onDestroy. cbn [listeners heap].
  rewrite (register_loop win sizes (writable _default));
    [|compute_done|done].
  cbn [listeners heap set_listeners set_heap writable].
  rewrite !app_nil_l. split.
  - apply (obj_get_lookup _ i).
    + rewrite fmap_imap.
      rewrite (imap_ext _ (const fst)) by done.
      rewrite imap_const. compute_done.
    + by rewrite list_lookup_imap, Hi.
  - by rewrite list_lookup_fmap, Hi.
Qed.

(** X4. With a [window], in every world the store reaches, before or
    after the view is destroyed, the listener of a breakpoint name
    finds the entry of its key: it does not throw, and the flag it
    copies is the one of the object made for the query of that name.
    Without [window] the same listener would throw, for the table is
    empty; but then no object exists that could run it. *)
Theorem listener_finds_its_object
    (win : Window) (ops : list Op) (key : string) :
  key ∈ names →
  (∃ w r q, run ops (media_query (Some win)) = Ok w ∧
            mql_of key w = Some r ∧
            heap w !! r = Some q ∧
            (key, media q) ∈ sizes ∧
            run_listener (OnChange key) w
            = Ok (update (λ s, <[key := matches q]> s) w)) ∧
  (∃ w, run ops (media_query None) = Ok w ∧
        heap w = [] ∧
        run_listener (OnChange key) w = Throw TypeError).
Proof.
  intros Hkey. split.
  - destruct (names_sizes key Hkey) as (i & query & Hi).
    destruct (media_query_entry win i key query Hi) as [Hget Hobj].
    destruct (run_frozen ops _ (media_query_wf (Some win)))
      as (w & Hrun & Hw & Hl & _ & Hh).
    destruct (Forall2_lookup_r _ _ _ _ _ Hh Hobj) as (q & Hq & Hmd & _).
    exists w, i, q. split; [done|].
    split; [unfold mql_of; by rewrite Hl, Hget|].
    split; [done|]. split.
    + rewrite Hmd. simpl. by eapply list_elem_of_lookup_2.
    + simpl. apply (onChange_ok w i q key); [by rewrite Hl|done].
  - destruct (run_frozen ops _ (media_query_wf None))
      as (w & Hrun & Hw & Hl & _ & Hh).
    exists w. split; [done|].
    simpl in Hl, Hh. apply Forall2_nil_inv_r in Hh.
    split; [done|].
    simpl. unfold onChange. by rewrite Hl.
Qed.

Lemma listener_finds_its_object_witness :
  "xl" ∈ names ∧
  (∃ w r q, run [Subscribe; Change 3 true; Destroy; Change 3 false]
                (media_query (Some (λ _, false))) = Ok w ∧
            mql_of "xl" w = Some r ∧
            heap w !! r = Some q ∧
            ("xl", media q) ∈ sizes ∧
            run_listener (OnChange "xl") w
            = Ok (update (λ s, <["xl" := matches q]> s) w)) ∧
  (∃ w, run [Subscribe; Change 3 true; Destroy; Change 3 false]
            (media_query None) = Ok w ∧
        heap w = [] ∧
        run_listener (OnChange "xl") w = Throw TypeError).
Proof.
  assert (Hxl : "xl" ∈ names) by compute_done.
  split; [exact Hxl|].
  apply (listener_finds_its_object (λ _, false)
           [Subscribe; Change 3 true; Destroy; Change 3 false] "xl" Hxl).
Defined.

(** **** What the state says about the viewport *)

Lemma run_cons o ops w : run (o :: ops) w = w' ← exec o w; run ops w'.
Proof. done. Qed.

Lemma bind_Ok {A B} (a : A) (k : A → Result B) : (x ← Ok a; k x) = k a.
Proof. done. Qed.

(** An operation other than an event changes neither the state nor
    the heap nor the table. *)
Lemma exec_not_event o w w' :
  is_change o = false → is_destroy o = false →
  exec o w = Ok w' →
  value w' = value w ∧ heap w' = heap w ∧ listeners w' = listeners w.
Proof.
  destruct o; try done; simpl; intros _ _ Hex; by injection Hex as <-.
Qed.

(** An event on one object, as seen from the name of an object:
    the flag and the entry of the state change together, or neither
    does. *)
Lemma change_seen w r0 b q0 key r q' :
  wf w → live w → key ∈ names →
  heap w !! r0 = Some q0 →
  mql_of key w = Some r →
  heap (fire b (change q0)
          (set_heap (<[r0 := set_matches b q0]> (heap w)) w)) !! r
  = Some q' →
  (r = r0 ∧ matches q' = b ∧
   value (fire b (change q0)
            (set_heap (<[r0 := set_matches b q0]> (heap w)) w)) !! key
   = Some b) ∨
  (r ≠ r0 ∧ heap w !! r = Some q' ∧
   value (fire b (change q0)
            (set_heap (<[r0 := set_matches b q0]> (heap w)) w)) !! key
   = value w !! key).
Proof.
  intros Hw Hl Hkey Hr0 Hr Hq'.
  destruct (fire_frame b (change q0)
    (set_heap (<[r0 := set_matches b q0]> (heap w)) w)) as (Hh & _).
  rewrite Hh in Hq'. simpl in Hq'.
  destruct (decide (r = r0)) as [->|Hne].
  - left. split; [done|].
    rewrite list_lookup_insert_eq in Hq' by (by eapply lookup_lt_Some).
    injection Hq' as <-. split; [done|].
    destruct (Hl key Hkey) as (r' & q & Hget & Hq & Hc).
    unfold mql_of in Hr. rewrite Hget in Hr. injection Hr as ->.
    rewrite Hr0 in Hq. injection Hq as <-.
    rewrite Hc. simpl. apply lookup_insert_eq.
  - right. split; [done|].
    rewrite list_lookup_insert_ne in Hq' by done. split; [done|].
    rewrite fire_value_other; [done|].
    intros [k] Hk Heq. simpl in Heq. subst k.
    destruct (wf_handler w Hw r0 q0 key Hr0 Hk) as [Hget _].
    unfold mql_of in Hr. rewrite Hget in Hr. by injection Hr.
Qed.




Lemma exec_tracks key r o w w' :
  is_destroy o = false → wf w → live w → key ∈ names →
  mql_of key w = Some r ∧ tracks key w →
  exec o w = Ok w' →
  mql_of key w' = Some r ∧ tracks key w'.
Proof.
  intros Ho Hw Hl Hkey [Hr HP] Hex.
  destruct (is_change o) eqn:Hc.
  - destruct o as [| |r0 b|]; try done. simpl in Hex.
    destruct (heap w !! r0) as [q0|] eqn:Hr0.
    + rewrite (viewport_change_fire w r0 q0 b Hw Hr0) in Hex.
      injection Hex as <-.
      assert (Hls : ∀ k,
        mql_of k (fire b (change q0)
          (set_heap (<[r0 := set_matches b q0]> (heap w)) w))
        = mql_of k w).
      { intros k. unfold mql_of.
        by destruct (fire_frame b (change q0)
          (set_heap (<[r0 := set_matches b q0]> (heap w)) w))
          as (_ & -> & _). }
      split; [by rewrite Hls|].
      intros r1 q' Hr1 Hq'. rewrite Hls, Hr in Hr1. injection Hr1 as <-.
      destruct (change_seen w r0 b q0 key r q' Hw Hl Hkey Hr0 Hr Hq')
        as [(_ & Hm & Hb)|(_ & Hq & Hsame)].
      * by rewrite Hb, Hm.
      * rewrite Hsame. by apply (HP r q').
    + unfold viewport_change in Hex. rewrite Hr0 in Hex.
      by injection Hex as <-.
  - destruct (exec_not_event o w w' Hc Ho Hex) as (Hv & Hh & Hls).
    unfold tracks, mql_of in *. by rewrite Hv, Hh, Hls.
Qed.

(** X6. Once a change event has been delivered for a breakpoint name,
    and as long as the view is not destroyed, the state holds under
    that name exactly the flag of its object, whatever happens next. *)
Theorem exact_after_an_event
    (win : Window) (ops1 ops2 : list Op) (key : string) :
  existsb is_destroy ops1 = false →
  existsb is_destroy ops2 = false →
  key ∈ names →
  ∃ w1 r, run ops1 (media_query (Some win)) = Ok w1 ∧
          mql_of key w1 = Some r ∧
          ∀ b, ∃ w2 q, run (Change r b :: ops2) w1 = Ok w2 ∧
                       mql_of key w2 = Some r ∧
                       heap w2 !! r = Some q ∧
                       CurrentState w2 !! key = Some (matches q).
Proof.
  intros Hops1 Hops2 Hkey.
  destruct (run_live ops1 _ Hops1 (media_query_wf (Some win))
              (media_query_live win)) as (w1 & Hrun1 & Hw1 & Hl1).
  destruct (Hl1 key Hkey) as (r & q1 & Hget & Hq1 & Hc1).
  assert (Hr : mql_of key w1 = Some r) by (unfold mql_of; by rewrite Hget).
  exists w1, r. split; [done|]. split; [done|].
  intros b.
  destruct (change_step w1 r b key Hw1 Hl1 Hkey Hr) as (q & Hq & _ & Hex).
  destruct (exec_live (Change r b) w1 eq_refl Hw1 Hl1)
    as (wc & Hex' & Hwc & Hlc).
  rewrite Hex in Hex'. injection Hex' as Hwc_eq.
  destruct (run_live_inv (λ w, mql_of key w = Some r ∧ tracks key w)
              ops2 wc) as (w2 & Hrun2 & _ & Hl2 & Hr2 & HP2); try done.
  - intros o w w' Ho Hw Hl HP. by apply exec_tracks.
  - rewrite <- Hwc_eq. split; [done|].
    intros r' q' Hr'. unfold mql_of in Hr, Hr'. simpl in Hr'.
    rewrite Hr in Hr'. injection Hr' as <-. simpl.
    rewrite list_lookup_insert_eq by (by eapply lookup_lt_Some).
    intros [= <-]. simpl. apply lookup_insert_eq.
  - destruct (Hl2 key Hkey) as (r' & q2 & Hget2 & Hq2 & _).
    assert (r' = r) as ->.
    { unfold mql_of in Hr2. rewrite Hget2 in Hr2. by injection Hr2. }
    exists w2, q2. rewrite run_cons, Hex, bind_Ok, Hwc_eq.
    split; [done|]. split; [done|]. split; [done|].
    by apply (HP2 r q2).
Qed.

Lemma exact_after_an_event_witness :
  existsb is_destroy [Subscribe] = false ∧
  existsb is_destroy [Change 0 true; Unsubscribe 0; Change 4 true] = false ∧
  "md" ∈ names ∧
  ∃ w1 r, run [Subscribe] (media_query (Some (λ _, true))) = Ok w1 ∧
          mql_of "md" w1 = Some r ∧
          ∀ b, ∃ w2 q,
            run (Change r b :: [Change 0 true; Unsubscribe 0; Change 4 true])
                w1 = Ok w2 ∧
            mql_of "md" w2 = Some r ∧
            heap w2 !! r = Some q ∧
            CurrentState w2 !! "md" = Some (matches q).
Proof.
  assert (Hmd : "md" ∈ names) by compute_done.
  split; [reflexivity|]. split; [reflexivity|]. split; [exact Hmd|].
  apply (exact_after_an_event (λ _, true) [Subscribe]
           [Change 0 true; Unsubscribe 0; Change 4 true] "md");
    [reflexivity|reflexivity|exact Hmd].
Defined.

(** **** After the view is destroyed *)

(** The destroy callback keeps every object, with its flag. *)
Lemma Teardown_lookup w r q :
  wf w → heap w !! r = Some q →
  ∃ q', heap (Teardown w) !! r = Some q' ∧
        media q' = media q ∧ matches q' = matches q ∧ change q' = [].
Proof.
  intros Hw Hq.
  pose proof (Teardown_released w Hw) as Hrel.
  rewrite (Teardown_heap w Hw) in Hrel |- *.
  destruct (lookup_lt_is_Some_2 (release (heap w) (listeners w)) r)
    as [q' Hq'].
  { rewrite release_length. by eapply lookup_lt_Some. }
  exists q'. split; [done|].
  destruct (release_fields _ _ _ _ Hq') as (q0 & Hq0 & Hmd & Hmt).
  rewrite Hq in Hq0. injection Hq0 as <-.
  split; [done|]. split; [done|].
  apply (Forall_lookup_1 _ _ _ _ Hrel Hq').
Qed.

(** X7. The destroy callback is the end of the tracking: whenever a
    breakpoint is reported as matching and the view is destroyed, a
    later change of the viewport is not seen, and the state keeps
    reporting a match that the object no longer has. *)
Theorem stale_after_destroy (win : Window) (ops : list Op) (key : string) :
  existsb is_destroy ops = false →
  key ∈ names →
  ∃ w r, run ops (media_query (Some win)) = Ok w ∧
         mql_of key w = Some r ∧
         ∃ w' q, run [Change r true; Destroy; Change r false] w = Ok w' ∧
                 heap w' !! r = Some q ∧
                 matches q = false ∧
                 CurrentState w' !! key = Some true.
Proof.
  intros Hops Hkey.
  destruct (run_live ops _ Hops (media_query_wf (Some win))
              (media_query_live win)) as (w & Hrun & Hw & Hl).
  destruct (Hl key Hkey) as (r & q0 & Hget & Hq0 & Hc0).
  assert (Hr : mql_of key w = Some r) by (unfold mql_of; by rewrite Hget).
  exists w, r. split; [done|]. split; [done|].
  destruct (change_step w r true key Hw Hl Hkey Hr) as (q & Hq & _ & Hex).
  destruct (exec_wf (Change r true) w Hw) as (w1 & Hex1 & Hw1 & _).
  rewrite Hex in Hex1. injection Hex1 as Hw1_eq.
  assert (Hq1 : heap w1 !! r = Some (set_matches true q)).
  { rewrite <- Hw1_eq. simpl.
    apply list_lookup_insert_eq. by eapply lookup_lt_Some. }
  destruct (Teardown_lookup w1 r _ Hw1 Hq1) as (q2 & Hq2 & _ & _ & Hc2).
  pose proof (Teardown_wf w1 Hw1) as Hw2.
  eexists _, (set_matches false q2).
  rewrite run_cons, Hex, bind_Ok, Hw1_eq.
  rewrite run_cons. cbn [exec]. rewrite bind_Ok.
  rewrite run_cons. cbn [exec].
  rewrite (viewport_change_fire _ r q2 false Hw2 Hq2), bind_Ok, Hc2.
  cbn [run fire foldl]. split; [done|]. simpl.
  split; [apply list_lookup_insert_eq; by eapply lookup_lt_Some|].
  split; [done|].
  unfold CurrentState. simpl.
  rewrite (Teardown_heap_only w1 Hw1), <- Hw1_eq. simpl.
  apply lookup_insert_eq.
Qed.

Lemma stale_after_destroy_witness :
  existsb is_destroy [Subscribe; Change 2 false] = false ∧
  "lg" ∈ names ∧
  ∃ w r, run [Subscribe; Change 2 false]
             (media_query (Some (λ _, false))) = Ok w ∧
         mql_of "lg" w = Some r ∧
         ∃ w' q, run [Change r true; Destroy; Change r false] w = Ok w' ∧
                 heap w' !! r = Some q ∧
                 matches q = false ∧
                 CurrentState w' !! "lg" = Some true.
Proof.
  assert (Hlg : "lg" ∈ names) by compute_done.
  split; [reflexivity|]. split; [exact Hlg|].
  apply (stale_after_destroy (λ _, false) [Subscribe; Change 2 false] "lg");
    [reflexivity|exact Hlg].
Defined.

(** **** Events for different breakpoints *)

(** X8. While the listeners are in place, the breakpoints are toggled
    independently: events for two different names lead to the same
    state and the same objects in either order (the subscribers see
    the two intermediate states in the order of the events). *)
Theorem events_commute (win : Window) (ops : list Op) (k1 k2 : string) :
  existsb is_destroy ops = false →
  k1 ∈ names → k2 ∈ names → k1 ≠ k2 →
  ∃ w r1 r2, run ops (media_query (Some win)) = Ok w ∧
             mql_of k1 w = Some r1 ∧ mql_of k2 w = Some r2 ∧
             ∀ b1 b2, ∃ wa wb,
               run [Change r1 b1; Change r2 b2] w = Ok wa ∧
               run [Change r2 b2; Change r1 b1] w = Ok wb ∧
               CurrentState wa = CurrentState wb ∧
               CurrentState wa = <[k1 := b1]> (<[k2 := b2]> (CurrentState w)) ∧
               heap wa = heap wb ∧
               subscribers wa = subscribers wb.
Proof.
  intros Hops Hk1 Hk2 Hne.
  destruct (run_live ops _ Hops (media_query_wf (Some win))
              (media_query_live win)) as (w & Hrun & Hw & Hl).
  destruct (Hl k1 Hk1) as (r1 & q1' & Hget1 & _ & _).
  destruct (Hl k2 Hk2) as (r2 & q2' & Hget2 & _ & _).
  assert (Hr1 : mql_of k1 w = Some r1) by (unfold mql_of; by rewrite Hget1).
  assert (Hr2 : mql_of k2 w = Some r2) by (unfold mql_of; by rewrite Hget2).
  assert (Hrne : r1 ≠ r2).
  { intros ->. by apply Hne, (live_inj w k1 k2 r2). }
  exists w, r1, r2. split; [done|]. split; [done|]. split; [done|].
  intros b1 b2.
  (* first the event for [k1], then the one for [k2] *)
  destruct (change_step w r1 b1 k1 Hw Hl Hk1 Hr1) as (q1 & Hq1 & _ & Hex1).
  destruct (exec_live (Change r1 b1) w eq_refl Hw Hl)
    as (wa1 & Hexa1 & Hwa1 & Hla1).
  rewrite Hex1 in Hexa1. injection Hexa1 as Hwa1_eq.
  assert (Hr2a : mql_of k2 wa1 = Some r2) by (by rewrite <- Hwa1_eq).
  destruct (change_step wa1 r2 b2 k2 Hwa1 Hla1 Hk2 Hr2a)
    as (q2a & Hq2a & _ & Hex2a).
  (* then the other way round *)
  destruct (change_step w r2 b2 k2 Hw Hl Hk2 Hr2) as (q2 & Hq2 & _ & Hex2).
  destruct (exec_live (Change r2 b2) w eq_refl Hw Hl)
    as (wb1 & Hexb1 & Hwb1 & Hlb1).
  rewrite Hex2 in Hexb1. injection Hexb1 as Hwb1_eq.
  assert (Hr1b : mql_of k1 wb1 = Some r1) by (by rewrite <- Hwb1_eq).
  destruct (change_step wb1 r1 b1 k1 Hwb1 Hlb1 Hk1 Hr1b)
    as (q1b & Hq1b & _ & Hex1b).
  (* the objects met on the way are those of [w] *)
  assert (q2a = q2) as ->.
  { rewrite <- Hwa1_eq in Hq2a. simpl in Hq2a.
    rewrite list_lookup_insert_ne in Hq2a by done. congruence. }
  assert (q1b = q1) as ->.
  { rewrite <- Hwb1_eq in Hq1b. simpl in Hq1b.
    rewrite list_lookup_insert_ne in Hq1b by done. congruence. }
  eexists _, _.
  split; [by rewrite run_cons, Hex1, bind_Ok, Hwa1_eq, run_cons, Hex2a|].
  split; [by rewrite run_cons, Hex2, bind_Ok, Hwb1_eq, run_cons, Hex1b|].
  rewrite <- Hwa1_eq, <- Hwb1_eq. unfold CurrentState. simpl.
  split; [by apply insert_insert_ne|].
  split; [by apply insert_insert_ne|].
  split; [|done].
  by apply list_insert_insert_ne.
Qed.

Lemma events_commute_witness :
  existsb is_destroy [Subscribe] = false ∧
  "sm" ∈ names ∧ "2xl" ∈ names ∧ "sm" ≠ "2xl" ∧
  ∃ w r1 r2, run [Subscribe] (media_query (Some (λ _, false))) = Ok w ∧
             mql_of "sm" w = Some r1 ∧ mql_of "2xl" w = Some r2 ∧
             ∀ b1 b2, ∃ wa wb,
               run [Change r1 b1; Change r2 b2] w = Ok wa ∧
               run [Change r2 b2; Change r1 b1] w = Ok wb ∧
               CurrentState wa = CurrentState wb ∧
               CurrentState wa
               = <["sm" := b1]> (<["2xl" := b2]> (CurrentState w)) ∧
               heap wa = heap wb ∧
               subscribers wa = subscribers wb.
Proof.
  assert (H1 : "sm" ∈ names) by compute_done.
  assert (H2 : "2xl" ∈ names) by compute_done.
  assert (H3 : "sm" ≠ "2xl") by compute_done.
  split; [reflexivity|]. split; [exact H1|]. split; [exact H2|].
  split; [exact H3|].
  apply (events_commute (λ _, false) [Subscribe] "sm" "2xl");
    [reflexivity|exact H1|exact H2|exact H3].
Defined.

(** **** The viewport at the time the store is built *)

Lemma update_alike fn w1 w2 :
  alike w1 w2 → alike (update fn w1) (update fn w2).
Proof.
  intros (Hh & Hv & Hs & Hl & Hd & Hc & Hf).
  unfold alike. simpl. by rewrite Hv, Hs, Hc.
Qed.

Lemma fire_alike b ls w1 w2 :
  alike w1 w2 → alike (fire b ls w1) (fire b ls w2).
Proof.
  revert w1 w2. induction ls as [|l ls IH]; intros w1 w2 Hw; [done|].
  simpl. by apply IH, update_alike.
Qed.

Lemma release_alike es h1 h2 :
  Forall2 same_shape h1 h2 →
  Forall2 same_shape (release h1 es) (release h2 es).
Proof.
  revert h1 h2. induction es as [|e es IH]; intros h1 h2 Hh; [done|].
  simpl. apply IH. apply Forall2_alter; [done|].
  intros q1 q2 _ _ [Hm Hc]. split; simpl; [done|]. by rewrite Hc.
Qed.

Lemma Teardown_release w :
  wf w → Teardown w = set_heap (release (heap w) (listeners w)) w.
Proof.
  intros Hw. rewrite (Teardown_heap_only w Hw) at 1.
  by rewrite (Teardown_heap w Hw).
Qed.

(** Two worlds that differ in the flags only go, by the same
    operation, to two worlds that differ in the flags only. *)
Lemma exec_alike o w1 w2 w1' :
  wf w1 → wf w2 → alike w1 w2 →
  exec o w1 = Ok w1' →
  ∃ w2', exec o w2 = Ok w2' ∧ alike w1' w2'.
Proof.
  intros Hw1 Hw2 Ha Hex.
  pose proof Ha as (Hh & Hv & Hs & Hl & Hd & Hc & Hf).
  destruct o as [|id|r b|]; simpl in Hex |- *.
  - injection Hex as <-. eexists. split; [done|].
    unfold alike. simpl. by rewrite Hv, Hs, Hc, Hf.
  - injection Hex as <-. eexists. split; [done|].
    unfold alike. simpl. by rewrite Hs.
  - destruct (heap w1 !! r) as [q1|] eqn:Hr1.
    + destruct (Forall2_lookup_l _ _ _ _ _ Hh Hr1) as (q2 & Hr2 & Hm & Hch).
      rewrite (viewport_change_fire w1 r q1 b Hw1 Hr1) in Hex.
      injection Hex as <-.
      rewrite (viewport_change_fire w2 r q2 b Hw2 Hr2).
      eexists. split; [done|].
      rewrite Hch. apply fire_alike.
      unfold alike. simpl. split; [|done].
      by apply Forall2_insert.
    + unfold viewport_change in Hex |- *. rewrite Hr1 in Hex.
      injection Hex as <-.
      assert (heap w2 !! r = None) as ->; [|by exists w2].
      apply lookup_ge_None. rewrite <- (Forall2_length _ _ _ Hh).
      by apply lookup_ge_None.
  - injection Hex as <-. eexists. split; [done|].
    rewrite (Teardown_release w1 Hw1), (Teardown_release w2 Hw2).
    unfold alike. simpl. split; [|done].
    rewrite Hl. by apply release_alike.
Qed.

Lemma run_alike ops w1 w2 :
  wf w1 → wf w2 → alike w1 w2 →
  ∃ w1' w2', run ops w1 = Ok w1' ∧ run ops w2 = Ok w2' ∧ alike w1' w2'.
Proof.
  revert w1 w2. induction ops as [|o ops IH]; intros w1 w2 Hw1 Hw2 Ha.
  - by exists w1, w2.
  - destruct (exec_wf o w1 Hw1) as (v1 & Hex1 & Hv1 & _).
    destruct (exec_alike o w1 w2 v1 Hw1 Hw2 Ha Hex1) as (v2 & Hex2 & Ha').
    destruct (exec_wf o w2 Hw2) as (v2' & Hex2' & Hv2 & _).
    rewrite Hex2 in Hex2'. injection Hex2' as <-.
    rewrite !run_cons, Hex1, Hex2, !bind_Ok. by apply IH.
Qed.

Lemma media_query_alike win1 win2 :
  alike (media_query (Some win1)) (media_query (Some win2)).
Proof.
  unfold alike. simpl. split; [|done].
  repeat (constructor; [by split|]). constructor.
Qed.

(** X9. The match state of the viewport at the time the store is
    built is never read: two stores built under different viewports
    and taken through the same operations have the same state, have
    made the same calls to the same subscribers, and have the same
    listeners on objects for the same queries. *)
Theorem initial_viewport_never_read (win1 win2 : Window) (ops : list Op) :
  ∃ w1 w2, run ops (media_query (Some win1)) = Ok w1 ∧
           run ops (media_query (Some win2)) = Ok w2 ∧
           CurrentState w1 = CurrentState w2 ∧
           calls w1 = calls w2 ∧
           subscribers w1 = subscribers w2 ∧
           Forall2 same_shape (heap w1) (heap w2).
Proof.
  destruct (run_alike ops _ _ (media_query_wf (Some win1))
              (media_query_wf (Some win2)) (media_query_alike win1 win2))
    as (w1 & w2 & Hrun1 & Hrun2 & Hh & Hv & Hs & _ & _ & Hc & _).
  by exists w1, w2.
Qed.

(** **** [Header] and the destroy callback leave the rest alone *)

Lemma filter_all {A} (P : A → Prop) `{∀ x, Decision (P x)} (l : list A) :
  Forall P l → filter P l = l.
Proof.
  induction 1 as [|x l Hx Hl IH]; [done|].
  by rewrite filter_cons_True, IH.
Qed.

(** X10. In every world the store reaches, rendering [Header] leaves
    the store as it found it: the subscription it makes is removed
    again, the other subscriptions, the state, the objects and the
    table are untouched, and the only trace is the one call of its
    own callback. Rendered by [Layout], on a store just built, it
    logs [false] whatever the viewport is. *)
Theorem Header_leaves_no_subscription
    (window : option Window) (ops : list Op) :
  (∃ w, run ops (media_query window) = Ok w ∧
        subscribers (Header w).1 = subscribers w ∧
        CurrentState (Header w).1 = CurrentState w ∧
        heap (Header w).1 = heap w ∧
        listeners (Header w).1 = listeners w ∧
        calls (Header w).1 = calls w ++ [(fresh w, CurrentState w)]) ∧
  (Layout window).2 = Some false ∧
  subscribers (Layout window).1 = [].
Proof.
  split.
  - destruct (reach window ops) as (w & Hrun & Hw).
    exists w. split; [done|].
    rewrite Header_unfold. simpl. repeat split; try done.
    rewrite filter_app, filter_cons_False, filter_nil, app_nil_r by auto.
    apply filter_all, Forall_forall. intros i Hi.
    apply (wf_subscribers w Hw) in Hi. lia.
  - unfold Layout. split.
    + rewrite (Header_logs _ (media_query_wf window)).
      by destruct window.
    + by destruct window.
Qed.

(** X11. The destroy callback removes listeners and nothing else: in
    every world the store reaches it leaves the subscriptions, the
    state, the calls made, the table and the registered callbacks as
    they are, and every object keeps its query and its flag. *)
Theorem destroy_removes_listeners_only
    (window : option Window) (ops : list Op) :
  ∃ w, run ops (media_query window) = Ok w ∧
       subscribers (Teardown w) = subscribers w ∧
       CurrentState (Teardown w) = CurrentState w ∧
       calls (Teardown w) = calls w ∧
       listeners (Teardown w) = listeners w ∧
       on_destroy (Teardown w) = on_destroy w ∧
       media <$> heap (Teardown w) = media <$> heap w ∧
       matches <$> heap (Teardown w) = matches <$> heap w.
Proof.
  destruct (reach window ops) as (w & Hrun & Hw).
  exists w. split; [done|].
  assert (Hlen : length (heap (Teardown w)) = length (heap w))
    by (by rewrite (Teardown_heap w Hw), release_length).
  assert (Hobj : ∀ i, (media <$> heap (Teardown w)) !! i
                      = (media <$> heap w) !! i ∧
                      (matches <$> heap (Teardown w)) !! i
                      = (matches <$> heap w) !! i).
  { intros i. rewrite !list_lookup_fmap.
    destruct (heap w !! i) as [q|] eqn:Hq.
    - destruct (Teardown_lookup w i q Hw Hq) as (q' & Hq' & Hmd & Hmt & _).
      rewrite Hq'. simpl. by rewrite Hmd, Hmt.
    - apply lookup_ge_None in Hq. rewrite <- Hlen in Hq.
      apply lookup_ge_None in Hq. by rewrite Hq. }
  rewrite (Teardown_heap_only w Hw) at 1 2 3 4 5. simpl.
  repeat split; try done; apply list_eq; intros i; apply Hobj.
Qed.

End BreakpointStore.
